(** * Budget settlement of the trip planner backend

    A shallow embedding of the budget routes (the router with
    [GET /:tripId], [POST /:tripId/setup], [POST /:tripId/expense] and
    [DELETE /:tripId/expense/:expenseId]) and proofs about the balance
    aggregation, the greedy debt resolution and the totals it reports.

    Numbers.  The source computes with JavaScript numbers.  This development
    reads every number as the exact rational it denotes ([Q], compared with
    [==]), so [amount / splitBetween.length] is an exact quotient and
    [toFixed(2)] is rounding to the closest hundredth.  Nothing here speaks
    about binary floating-point error.

    Objects.  [balances] is a plain JavaScript object used as a map from
    participant id to [{name, amount}].  Participant ids are the primary keys
    generated by the persistence layer (opaque text, never a canonical array
    index and never a member of [Object.prototype]), so [Object.entries]
    enumerates the keys in insertion order.  The object is modelled as an
    association list kept in insertion order with one cell per key.

    Loop.  The [while] loop is a step function on its variables
    ([debtors], [creditors], [i], [j], [debts]) iterated under a bound on
    the number of turns; the proofs follow it on the slices of the two
    arrays from the indices on, which is all a run depends on.

    Handlers.  A handler is a function from the tables and the
    authenticated request to its response.  The persistence layer is taken
    to answer its queries; the one failure modelled is the one a handler
    can provoke itself, the removal of a row that does not exist. *)

From Stdlib Require Import List String Bool Arith Lia ZArith.
From Stdlib Require Import QArith Qabs Qminmax Qround Lqa.
From Stdlib Require Import Permutation Sorted Morphisms Setoid.
Import ListNotations.

Open Scope Q_scope.

(** ** Numbers *)

(** The literal [0.01] used as threshold throughout the handler. *)
Definition eps : Q := 1 # 100.

(** [x < y] on numbers, as a boolean. *)
Definition Qltb (x y : Q) : bool := negb (Qle_bool y x).

(** [Number(x.toFixed(2))]: [toFixed] lets [n] be the integer for which
    [n / 100 - x] is as close to zero as possible, taking the larger [n]
    when there are two, after moving the sign of a negative [x] out.  (From
    10^21 on [toFixed] prints [x] itself; a JavaScript number that large is
    an integer, which the rounding leaves as it is.) *)
Definition toFixed2 (x : Q) : Q :=
  if Qltb x 0
  then - (Qfloor ((- x) * 100 + (1 # 2)) # 100)
  else Qfloor (x * 100 + (1 # 2)) # 100.

(** ** Data model *)

(** A row of [TripParticipant]. *)
Record TripParticipant : Type := mkParticipant {
  id : string;
  name : string
}.

(** A row of [Expense]. *)
Record Expense : Type := mkExpense {
  expenseId : string;
  amount : Q;
  category : string;
  description : string;
  paidById : string;
  splitWithIds : list string
}.

(** A row of [TripBudget] with [participants] and [expenses] included, the
    expenses in the order the query returns them. *)
Record TripBudget : Type := mkBudget {
  budgetId : string;
  tripId : string;
  totalBudget : Q;
  currency : string;
  participants : list TripParticipant;
  expenses : list Expense
}.

(** A row of [PlannedTrip]: its key and its owner. *)
Record PlannedTrip : Type := mkTrip {
  plannedTripId : string;
  userId : string
}.

(** The value stored in [balances] under a participant id. *)
Record Balance : Type := mkBalance {
  balanceName : string;
  balanceAmount : Q
}.

(** The [balances] object: keys in insertion order. *)
Definition Balances : Type := list (string * Balance).

(** An element of [debtors] or [creditors]: [{id, name, amount}]. *)
Record Party : Type := mkParty {
  partyId : string;
  partyName : string;
  partyAmount : Q
}.

(** An element of [debts]: [{from, to, amount}]. *)
Record Debt : Type := mkDebt {
  debtFrom : string;
  debtTo : string;
  debtAmount : Q
}.

(** ** The balances object *)

(** [balances[k] = v]: overwrite the cell of [k] where it stands, or add a
    new last cell. *)
Fixpoint objSet (k : string) (v : Balance) (o : Balances) : Balances :=
  match o with
  | [] => [(k, v)]
  | (k', v') :: o' =>
      if String.eqb k k' then (k, v) :: o' else (k', v') :: objSet k v o'
  end.

(** [balances[k]]: [None] stands for [undefined]. *)
Fixpoint objGet (k : string) (o : Balances) : option Balance :=
  match o with
  | [] => None
  | (k', v) :: o' => if String.eqb k k' then Some v else objGet k o'
  end.

(** [if (balances[k]) { balances[k].amount += delta }]: the cell of [k] is
    updated in place; an unknown [k] changes nothing. *)
Fixpoint addAmount (k : string) (delta : Q) (o : Balances) : Balances :=
  match o with
  | [] => []
  | (k', v) :: o' =>
      if String.eqb k k'
      then (k', mkBalance (balanceName v) (balanceAmount v + delta)) :: o'
      else (k', v) :: addAmount k delta o'
  end.

(** [if (balances[k]) { balances[k].amount -= delta }]. *)
Fixpoint subAmount (k : string) (delta : Q) (o : Balances) : Balances :=
  match o with
  | [] => []
  | (k', v) :: o' =>
      if String.eqb k k'
      then (k', mkBalance (balanceName v) (balanceAmount v - delta)) :: o'
      else (k', v) :: subAmount k delta o'
  end.

(** ** Balance aggregation *)

(** [budget.participants.forEach(p => balances[p.id] = {name: p.name, amount: 0})]. *)
Definition initBalances (ps : list TripParticipant) : Balances :=
  fold_left (fun balances p => objSet (id p) (mkBalance (name p) 0) balances) ps [].

(** The body of [budget.expenses.forEach(expense => ...)]. *)
Definition applyExpense (balances : Balances) (expense : Expense) : Balances :=
  let payerId := paidById expense in
  let amount := amount expense in
  let splitBetween := splitWithIds expense in
  if (0 <? List.length splitBetween)%nat then
    let splitAmount := amount / inject_Z (Z.of_nat (List.length splitBetween)) in
    let balances1 := addAmount payerId amount balances in
    fold_left (fun b i => subAmount i splitAmount b) splitBetween balances1
  else balances.

(** Step 1 of the handler: the net balance of every participant. *)
Definition computeBalances (ps : list TripParticipant) (es : list Expense) : Balances :=
  fold_left applyExpense es (initBalances ps).

(** ** Debt resolution *)

Definition partyOf (kv : string * Balance) : Party :=
  mkParty (fst kv) (balanceName (snd kv)) (balanceAmount (snd kv)).

(** [if (data.amount < -0.01) debtors.push(...)] over [Object.entries(balances)]. *)
Definition debtorsOf (balances : Balances) : list Party :=
  map partyOf (filter (fun kv => Qltb (balanceAmount (snd kv)) (- eps)) balances).

(** [if (data.amount > 0.01) creditors.push(...)] over [Object.entries(balances)]. *)
Definition creditorsOf (balances : Balances) : list Party :=
  map partyOf (filter (fun kv => Qltb eps (balanceAmount (snd kv))) balances).

(** [Array.prototype.sort] with a comparator: the sort is stable, and [a]
    stays before [b] when [compare a b <= 0]. *)
Fixpoint insertBy (compare : Party -> Party -> Q) (x : Party) (l : list Party) : list Party :=
  match l with
  | [] => [x]
  | y :: r => if Qle_bool (compare x y) 0 then x :: y :: r else y :: insertBy compare x r
  end.

Fixpoint sortBy (compare : Party -> Party -> Q) (l : list Party) : list Party :=
  match l with
  | [] => []
  | x :: r => insertBy compare x (sortBy compare r)
  end.

(** [debtors.sort((a, b) => a.amount - b.amount)]. *)
Definition sortDebtors : list Party -> list Party :=
  sortBy (fun a b => partyAmount a - partyAmount b).

(** [creditors.sort((a, b) => b.amount - a.amount)]. *)
Definition sortCreditors : list Party -> list Party :=
  sortBy (fun a b => partyAmount b - partyAmount a).

(** What one turn of the [while] loop does to [debtors[i]] and
    [creditors[j]]: the debts it pushes and the two mutated elements. *)
Definition transferAmount (debtor creditor : Party) : Q :=
  Qmin (Qabs (partyAmount debtor)) (partyAmount creditor).

Definition pushed (debtor creditor : Party) : list Debt :=
  let amount := transferAmount debtor creditor in
  if Qltb eps amount
  then [mkDebt (partyName debtor) (partyName creditor) (toFixed2 amount)]
  else [].

Definition debtorAfter (debtor creditor : Party) : Party :=
  mkParty (partyId debtor) (partyName debtor)
          (partyAmount debtor + transferAmount debtor creditor).

Definition creditorAfter (debtor creditor : Party) : Party :=
  mkParty (partyId creditor) (partyName creditor)
          (partyAmount creditor - transferAmount debtor creditor).

(** [if (Math.abs(debtor.amount) < 0.01)] and [if (creditor.amount < 0.01)],
    the tests that move the indices on. *)
Definition debtorSettled (debtor' : Party) : bool :=
  Qltb (Qabs (partyAmount debtor')) eps.

Definition creditorSettled (creditor' : Party) : bool :=
  Qltb (partyAmount creditor') eps.

(** [l[k] = x] for [k] within the array: the loop mutates the objects
    [debtors[i]] and [creditors[j]] where they stand. *)
Fixpoint setNth {A : Type} (k : nat) (x : A) (l : list A) : list A :=
  match l, k with
  | [], _ => []
  | _ :: r, O => x :: r
  | y :: r, S k' => y :: setNth k' x r
  end.

(** The variables of the loop. *)
Record Loop : Type := mkLoop {
  debtors : list Party;
  creditors : list Party;
  i : nat;
  j : nat;
  debts : list Debt
}.

(** One turn of [while (i < debtors.length && j < creditors.length)];
    [None] when the condition fails. *)
Definition turn (s : Loop) : option Loop :=
  match nth_error (debtors s) (i s), nth_error (creditors s) (j s) with
  | Some debtor, Some creditor =>
      let debtor' := debtorAfter debtor creditor in
      let creditor' := creditorAfter debtor creditor in
      Some (mkLoop (setNth (i s) debtor' (debtors s))
                   (setNth (j s) creditor' (creditors s))
                   (if debtorSettled debtor' then S (i s) else i s)
                   (if creditorSettled creditor' then S (j s) else j s)
                   (debts s ++ pushed debtor creditor))
  | _, _ => None
  end.

(** The loop.  [fuel] bounds the number of turns: [None] means the bound was
    reached with the loop still running. *)
Fixpoint run (fuel : nat) (s : Loop) : option (list Debt) :=
  match turn s with
  | None => Some (debts s)
  | Some s' =>
      match fuel with
      | O => None
      | S fuel' => run fuel' s'
      end
  end.

(** Step 2 of the handler: from the balances to [debts]. *)
Definition resolveDebts (balances : Balances) : option (list Debt) :=
  let debtors := sortDebtors (debtorsOf balances) in
  let creditors := sortCreditors (creditorsOf balances) in
  run (List.length debtors + List.length creditors) (mkLoop debtors creditors 0 0 []).

(** [budget.expenses.reduce((sum, e) => sum + e.amount, 0)]. *)
Definition totalSpent (es : list Expense) : Q :=
  fold_left (fun sum e => sum + amount e) es 0.

(** ** The persistence layer and the route handlers *)

(** The tables the budget routes read and write.  Expenses and participants
    are stored under the budget that owns them, as the queries with
    [include] return them. *)
Record Db : Type := mkDb {
  plannedTrips : list PlannedTrip;
  tripBudgets : list TripBudget
}.

(** [prisma.plannedTrip.findUnique({ where: { id: tripId } })]. *)
Definition findPlannedTrip (db : Db) (tid : string) : option PlannedTrip :=
  find (fun t => String.eqb (plannedTripId t) tid) (plannedTrips db).

(** [prisma.tripBudget.findFirst({ where: { tripId }, include: ... })]. *)
Definition findBudget (db : Db) (tid : string) : option TripBudget :=
  find (fun b => String.eqb (tripId b) tid) (tripBudgets db).

Definition hasExpense (eid : string) (b : TripBudget) : bool :=
  existsb (fun e => String.eqb (expenseId e) eid) (expenses b).

Definition withoutExpense (eid : string) (b : TripBudget) : TripBudget :=
  mkBudget (budgetId b) (tripId b) (totalBudget b) (currency b) (participants b)
           (filter (fun e => negb (String.eqb (expenseId e) eid)) (expenses b)).

(** [prisma.expense.delete({ where: { id: expenseId } })]: the row with that
    key is removed; when there is none the call throws, which is [None]. *)
Definition expenseDelete (db : Db) (eid : string) : option Db :=
  if existsb (hasExpense eid) (tripBudgets db)
  then Some (mkDb (plannedTrips db) (map (withoutExpense eid) (tripBudgets db)))
  else None.

(** What a handler sends: [res.status(s).json(body)], [s] being 200 when the
    handler does not set it. *)
Inductive Body : Type :=
| ErrorBody (error : string)
| NotSetupBody
| SuccessBody
| StatsBody (budget : TripBudget) (totalSpent remaining : Q) (debts : list Debt).

Record Response : Type := mkResponse {
  status : nat;
  body : Body
}.

(** An authenticated request: [req.userId] as set by [authenticateToken] and
    the route parameters. *)
Record Request : Type := mkRequest {
  reqUserId : string;
  reqTripId : string;
  reqExpenseId : string
}.

(** [router.get('/:tripId', authenticateToken, ...)].  [None] only when the
    debt resolution loop outlives its bound. *)
Definition getBudget (db : Db) (req : Request) : option Response :=
  match findPlannedTrip db (reqTripId req) with
  | None => Some (mkResponse 404 (ErrorBody "Trip not found"))
  | Some plannedTrip =>
      if negb (String.eqb (userId plannedTrip) (reqUserId req))
      then Some (mkResponse 403 (ErrorBody "Not authorized to view this budget"))
      else
        match findBudget db (reqTripId req) with
        | None => Some (mkResponse 200 NotSetupBody)
        | Some budget =>
            let balances := computeBalances (participants budget) (expenses budget) in
            match resolveDebts balances with
            | None => None
            | Some debts =>
                let totalSpent := totalSpent (expenses budget) in
                Some (mkResponse 200
                        (StatsBody budget totalSpent (totalBudget budget - totalSpent) debts))
            end
        end
  end.

(** [router.delete('/:tripId/expense/:expenseId', authenticateToken, ...)]:
    the new tables and the response. *)
Definition deleteExpense (db : Db) (req : Request) : Db * Response :=
  match expenseDelete db (reqExpenseId req) with
  | Some db' => (db', mkResponse 200 SuccessBody)
  | None => (db, mkResponse 500 (ErrorBody "Failed to delete expense"))
  end.

(** ** Notions used by the statements *)

(** *** Reading the balances *)

(** The keys of the [balances] object, in enumeration order. *)
Definition keys (o : Balances) : list string := map fst o.

(** The display names held in the balances object, and in a list of parties. *)
Definition names (o : Balances) : list string :=
  map (fun kv => balanceName (snd kv)) o.

Definition partyNames (l : list Party) : list string := map partyName l.

(** The balance stored under id [k], zero when there is none. *)
Definition amountOf (k : string) (o : Balances) : Q :=
  match objGet k o with
  | Some v => balanceAmount v
  | None => 0
  end.

(** The sum of all balances, of all expense amounts, and of the amounts of a
    list of parties. *)
Definition sumBalances (o : Balances) : Q :=
  fold_right (fun kv s => balanceAmount (snd kv) + s) 0 o.




(** *** Expenses that refer to known participants *)



(** *** The loop seen on the remaining slices *)

(** The elements before the indices are never read again, so a run is
    determined by [debtors.slice(i)] and [creditors.slice(j)], whose heads
    are the elements a turn mutates.  [debtorsRest] and [creditorsRest] are
    the slices after a turn, and [resolveLoop] is the loop on the slices: it
    returns the debts pushed from the state on ([run_slices] below). *)
Definition debtorsRest (debtor' : Party) (rest : list Party) : list Party :=
  if debtorSettled debtor' then rest else debtor' :: rest.

Definition creditorsRest (creditor' : Party) (rest : list Party) : list Party :=
  if creditorSettled creditor' then rest else creditor' :: rest.

Fixpoint resolveLoop (fuel : nat) (ds cs : list Party) : option (list Debt) :=
  match ds, cs with
  | debtor :: ds', creditor :: cs' =>
      match fuel with
      | O => None
      | S fuel' =>
          let debtor' := debtorAfter debtor creditor in
          let creditor' := creditorAfter debtor creditor in
          match resolveLoop fuel' (debtorsRest debtor' ds') (creditorsRest creditor' cs') with
          | Some later => Some (pushed debtor creditor ++ later)
          | None => None
          end
      end
  | _, _ => Some []
  end.

(** *** The states of the loop *)

(** What the partition guarantees and every turn of the loop keeps: a debtor
    still in play owes the threshold or more, a creditor still in play is
    owed the threshold or more. *)
Definition debtorOk (p : Party) : Prop := partyAmount p <= - eps.
Definition creditorOk (p : Party) : Prop := eps <= partyAmount p.


(** What is known of an emitted amount: it is the rounding of a transfer
    amount above the threshold. *)
Definition emittedOk (t : Debt) : Prop :=
  exists a, eps < a /\ debtAmount t = toFixed2 a.

(** *** Applying the debts *)

(** Applying a transfer to the balances: its amount is subtracted from the
    balance of the participant named in [to] and added to the balance of the
    participant named in [from]. *)
Definition applyDebt (o : Balances) (t : Debt) : Balances :=
  map (fun kv =>
         let v := snd kv in
         let plus := if String.eqb (balanceName v) (debtFrom t) then debtAmount t else 0 in
         let minus := if String.eqb (balanceName v) (debtTo t) then debtAmount t else 0 in
         (fst kv, mkBalance (balanceName v) (balanceAmount v + plus - minus)))
      o.

Definition applyDebts (debts : list Debt) (o : Balances) : Balances :=
  fold_left applyDebt debts o.




(** *** The same data written differently *)



Definition sameBalances (o1 o2 : Balances) : Prop :=
  Forall2 (fun kv1 kv2 =>
             fst kv1 = fst kv2 /\
             balanceName (snd kv1) = balanceName (snd kv2) /\
             balanceAmount (snd kv1) == balanceAmount (snd kv2)) o1 o2.

Definition sameDebts (l1 l2 : list Debt) : Prop :=
  Forall2 (fun t1 t2 =>
             debtFrom t1 = debtFrom t2 /\
             debtTo t1 = debtTo t2 /\
             debtAmount t1 == debtAmount t2) l1 l2.


(** ** Scenarios *)

Module Scenario.

Definition A : TripParticipant := mkParticipant "id-a" "A".
Definition B : TripParticipant := mkParticipant "id-b" "B".
Definition C : TripParticipant := mkParticipant "id-c" "C".
Definition D : TripParticipant := mkParticipant "id-d" "D".
Definition E : TripParticipant := mkParticipant "id-e" "E".

(** [{amount: 90, paidBy: A, splitWith: [A, B, C]}]. *)
Definition dinner : Expense :=
  mkExpense "exp-1" 90 "food" "dinner" "id-a" ["id-a"; "id-b"; "id-c"]%string.


(** An expense split with nobody. *)
Definition unsplit : Expense :=
  mkExpense "exp-3" 50 "misc" "souvenir" "id-a" [].

(** [{amount: 0.012, paidBy: A, splitWith: [B]}]. *)
Definition tiny : Expense :=
  mkExpense "exp-4" (12 # 1000) "misc" "stamp" "id-a" ["id-b"]%string.


(** A trip of [alice] with a budget of 100 on which 150 was spent, and a
    second user, [mallory], who owns another trip. *)
Definition overspent : TripBudget :=
  mkBudget "budget-1" "trip-1" 100 "USD" [A; B]
           [mkExpense "exp-6" 100 "stay" "hotel" "id-a" ["id-a"; "id-b"]%string;
            mkExpense "exp-7" 50 "food" "lunch" "id-b" ["id-a"; "id-b"]%string].

Definition db : Db :=
  mkDb [mkTrip "trip-1" "alice"; mkTrip "trip-2" "mallory"] [overspent].

End Scenario.

(** ** Notions for the further properties *)

(** *** What an expense does to the balances *)






(** ** The routes that write to the budget tables

    The setup and the expense routes create rows.  The keys the
    persistence layer generates for them are arguments of the handlers.
    Besides the removal of a row that does not exist, two failures of the
    persistence layer are modelled, both constraints of the schema: the
    unique index on the trip of a budget, and the foreign key from the
    payer of an expense to the participants table.  A handler that fails
    answers with status 500 and leaves the tables as they were. *)

(** [new Set(iterable)] spread into an array: every value is added unless
    it is in the set already, and the set is enumerated in insertion order. *)
Definition setAdd (x : string) (s : list string) : list string :=
  if existsb (String.eqb x) s then s else s ++ [x].

Definition newSet (l : list string) : list string :=
  fold_left (fun s x => setAdd x s) l [].

(** What a route handler answers: [Refused] is [res.status(s).json({ error })],
    [Answered] is [res.status(s).json(payload)], with status 200 when the
    handler does not set one. *)
Inductive Reply (A : Type) : Type :=
| Refused (code : nat) (error : string)
| Answered (code : nat) (payload : A).

Arguments Refused {A} code error.
Arguments Answered {A} code payload.

(** The keys the persistence layer generates for the rows a handler
    creates: one for a budget, one for each participant created with it (by
    position), one for an expense. *)
Record Generated : Type := mkGenerated {
  newBudgetId : string;
  newParticipantId : nat -> string;
  newExpenseId : string
}.

(** The body of [POST /:tripId/setup], its fields being of the types the
    handler expects: [totalBudget] after [parseFloat], [currency] a string
    when present, [participants] an array of strings. *)
Record SetupBody : Type := mkSetupBody {
  setupTotalBudget : Q;
  setupCurrency : option string;
  setupParticipants : list string
}.

(** The scalar fields of a row of [TripBudget], as [create] returns it. *)
Record BudgetRow : Type := mkBudgetRow {
  rowId : string;
  rowTripId : string;
  rowTotalBudget : Q;
  rowCurrency : string
}.

(** [currency || 'USD']: the empty string is falsy. *)
Definition currencyOrDefault (currency : option string) : string :=
  match currency with
  | Some c => if String.eqb c "" then "USD" else c
  | None => "USD"
  end.

(** [names.map(name => ({ budgetId, name }))] given to [createMany], each
    row with the key generated for it. *)
Definition participantRows (fresh : Generated) (participantNames : list string)
  : list TripParticipant :=
  map (fun kn => mkParticipant (newParticipantId fresh (fst kn)) (snd kn))
      (combine (seq 0 (List.length participantNames)) participantNames).

(** The rows one setup creates: the budget of [tx.tripBudget.create] with
    the participants of [tx.tripParticipant.createMany] under it, and no
    expense. *)
Definition createdBudget (fresh : Generated) (tid : string) (body : SetupBody)
  : TripBudget :=
  let names := newSet ("Me" :: setupParticipants body)%string in
  mkBudget (newBudgetId fresh) tid (setupTotalBudget body)
           (currencyOrDefault (setupCurrency body))
           (participantRows fresh names) [].

(** [router.post('/:tripId/setup', authenticateToken, ...)].  The unique
    index on [TripBudget.tripId] makes [create] throw when the trip has a
    budget already; the transaction then leaves the tables as they were.
    The answer is the row of the budget. *)
Definition setupBudget (fresh : Generated) (db : Db) (req : Request) (body : SetupBody)
  : Db * Reply BudgetRow :=
  match findPlannedTrip db (reqTripId req) with
  | None => (db, Refused 403 "Not authorized")
  | Some trip =>
      if negb (String.eqb (userId trip) (reqUserId req))
      then (db, Refused 403 "Not authorized")
      else if existsb (fun b => String.eqb (tripId b) (reqTripId req)) (tripBudgets db)
      then (db, Refused 500 "Failed to setup budget")
      else
        let budget := createdBudget fresh (reqTripId req) body in
        (mkDb (plannedTrips db) (tripBudgets db ++ [budget]),
         Answered 200 (mkBudgetRow (budgetId budget) (tripId budget)
                                   (totalBudget budget) (currency budget)))
  end.

(** The body of [POST /:tripId/expense], [amount] after [parseFloat]. *)
Record ExpenseBody : Type := mkExpenseBody {
  bodyAmount : Q;
  bodyCategory : string;
  bodyDescription : string;
  bodyPaidById : string;
  bodySplitWithIds : list string
}.

(** The row of [TripParticipant] with a given key, in whichever budget: the
    foreign key of [Expense.paidById], and the row that
    [include: { paidBy: true }] returns. *)
Definition findParticipant (db : Db) (pid : string) : option TripParticipant :=
  find (fun p => String.eqb (id p) pid) (flat_map participants (tripBudgets db)).

(** A new row of [Expense] under its budget.  Its [date] is the time of the
    call, so it comes first in [orderBy: { date: 'desc' }]. *)
Definition withExpense (bid : string) (e : Expense) (b : TripBudget) : TripBudget :=
  if String.eqb (budgetId b) bid
  then mkBudget (budgetId b) (tripId b) (totalBudget b) (currency b) (participants b)
                (e :: expenses b)
  else b.

(** [router.post('/:tripId/expense', authenticateToken, ...)].  [create]
    throws when [paidById] is the key of no participant. *)
Definition addExpense (fresh : Generated) (db : Db) (req : Request) (body : ExpenseBody)
  : Db * Reply (Expense * TripParticipant) :=
  match findBudget db (reqTripId req) with
  | None => (db, Refused 404 "Budget not found")
  | Some budget =>
      match findParticipant db (bodyPaidById body) with
      | None => (db, Refused 500 "Failed to add expense")
      | Some paidBy =>
          let expense :=
            mkExpense (newExpenseId fresh) (bodyAmount body) (bodyCategory body)
                      (bodyDescription body) (bodyPaidById body) (bodySplitWithIds body) in
          (mkDb (plannedTrips db)
                (map (withExpense (budgetId budget) expense) (tripBudgets db)),
           Answered 200 (expense, paidBy))
      end
  end.

(** *** The tables the routes can produce *)

(** One call of a route that writes. *)
Inductive Call : Type :=
| CallSetup (fresh : Generated) (req : Request) (body : SetupBody)
| CallAddExpense (fresh : Generated) (req : Request) (body : ExpenseBody)
| CallDeleteExpense (req : Request).

Definition perform (db : Db) (c : Call) : Db :=
  match c with
  | CallSetup fresh req body => fst (setupBudget fresh db req body)
  | CallAddExpense fresh req body => fst (addExpense fresh db req body)
  | CallDeleteExpense req => fst (deleteExpense db req)
  end.

(** The tables after a sequence of calls, started with trips that have no
    budget yet. *)
Definition tablesAfter (trips : list PlannedTrip) (calls : list Call) : Db :=
  fold_left perform calls (mkDb trips []).

(** What the budget tables keep through every call: the trips are the ones
    they started with; no trip has two budgets; a budget belongs to one of
    the trips, the names of its participants are pairwise different and
    start with ["Me"], and each of its expenses is paid by a row of the
    participants table. *)
Definition budgetSound (trips : list PlannedTrip) (db : Db) (b : TripBudget) : Prop :=
  (exists trip, In trip trips /\ plannedTripId trip = tripId b) /\
  NoDup (map name (participants b)) /\
  hd_error (map name (participants b)) = Some "Me"%string /\
  Forall (fun e => findParticipant db (paidById e) <> None) (expenses b).

Definition tablesSound (trips : list PlannedTrip) (db : Db) : Prop :=
  plannedTrips db = trips /\
  NoDup (map tripId (tripBudgets db)) /\
  Forall (budgetSound trips db) (tripBudgets db).

(** Two states of a budget that differ in its expenses at most. *)
Definition sameSetup (b b' : TripBudget) : Prop :=
  budgetId b' = budgetId b /\
  tripId b' = tripId b /\
  totalBudget b' = totalBudget b /\
  currency b' = currency b /\
  participants b' = participants b.

(** Generated keys for the examples: the budget and the expense get the
    given keys, the participants the keys ["a"], ["b"], ... by position. *)
Module Calls.

Definition generated (budget expense : string) : Generated :=
  mkGenerated budget (fun k => String (Ascii.ascii_of_nat (97 + k)) "") expense.

End Calls.

(** ** Packing templates

    The router with [GET /], [POST /], [DELETE /:id] and
    [POST /:id/apply/:tripId].  The items of a template and the checklist
    of a trip are JSON columns; they are modelled by the records the
    handlers write into them, read back as they were written. *)

(** [array.map((item, index) => f(item, index))]. *)
Definition mapIndexed {A B : Type} (f : A -> nat -> B) (l : list A) : list B :=
  map (fun p => f (snd p) (fst p)) (combine (seq 0 (List.length l)) l).

(** An element of [req.body.items].  The handler reads its [task] and its
    [category]; a field that is absent reads as [undefined], which is
    [None].  The fields are of the types the client sends: strings for
    [task] and [category], a number for [id], a boolean for [completed]. *)
Record SentItem : Type := mkSentItem {
  sentId : option nat;
  sentTask : option string;
  sentCategory : option string;
  sentCompleted : option bool
}.

(** An element of the [items] of a template and of the [checklist] of a
    trip, as the JSON columns hold it: [{id, task, category, completed}],
    without the fields that were [undefined] when it was written. *)
Record ChecklistItem : Type := mkChecklistItem {
  checkId : nat;
  checkTask : option string;
  checkCategory : option string;
  checkCompleted : bool
}.

(** [{ id: index + 1, task: item.task, category: item.category,
    completed: false }]. *)
Definition templateItem (item : SentItem) (index : nat) : ChecklistItem :=
  mkChecklistItem (index + 1) (sentTask item) (sentCategory item) false.

(** [{ ...item, id: index + 1, completed: false }]. *)
Definition checklistItem (item : ChecklistItem) (index : nat) : ChecklistItem :=
  mkChecklistItem (index + 1) (checkTask item) (checkCategory item) false.

(** A row of [PackingTemplate]. *)
Record PackingTemplate : Type := mkTemplate {
  templateId : string;
  templateUserId : string;
  templateName : string;
  templateItems : list ChecklistItem
}.

(** The tables the packing routes read and write: the trips, the templates
    with the latest created first, which is the order of
    [orderBy: { createdAt: 'desc' }], and the [checklist] column of the
    trips, by the key of the trip. *)
Record PackingDb : Type := mkPackingDb {
  packingTrips : list PlannedTrip;
  packingTemplates : list PackingTemplate;
  checklists : list (string * list ChecklistItem)
}.

(** An authenticated request to a packing route: [req.userId] and the route
    parameters [id] and [tripId]. *)
Record PackingRequest : Type := mkPackingRequest {
  packUserId : string;
  packTemplateId : string;
  packTripId : string
}.

(** The body of [POST /]: [name] a string and [items] an array when they
    are present. *)
Record TemplateBody : Type := mkTemplateBody {
  sentName : option string;
  sentItems : option (list SentItem)
}.

(** What the routes show of a template: [{id, name, items, createdAt}],
    the time of creation left out. *)
Record TemplateView : Type := mkTemplateView {
  viewId : string;
  viewName : string;
  viewItems : list ChecklistItem
}.

Definition viewOf (t : PackingTemplate) : TemplateView :=
  mkTemplateView (templateId t) (templateName t) (templateItems t).

(** [router.get('/', authenticateToken, ...)]. *)
Definition getTemplates (db : PackingDb) (req : PackingRequest) : list TemplateView :=
  map viewOf
      (filter (fun t => String.eqb (templateUserId t) (packUserId req))
              (packingTemplates db)).

(** [router.post('/', authenticateToken, ...)]: [!name] holds of an absent
    name and of the empty string, [!items] of absent items.  [newId] is the
    key generated for the row. *)
Definition saveTemplate (newId : string) (db : PackingDb) (req : PackingRequest)
  (body : TemplateBody) : PackingDb * Reply TemplateView :=
  match sentName body, sentItems body with
  | Some name, Some items =>
      if String.eqb name ""
      then (db, Refused 400 "Name and items array are required")
      else
        let template :=
          mkTemplate newId (packUserId req) name (mapIndexed templateItem items) in
        (mkPackingDb (packingTrips db) (template :: packingTemplates db) (checklists db),
         Answered 201 (viewOf template))
  | _, _ => (db, Refused 400 "Name and items array are required")
  end.

(** [prisma.packingTemplate.findFirst({ where: { id, userId } })]. *)
Definition findTemplate (db : PackingDb) (tid uid : string) : option PackingTemplate :=
  find (fun t => String.eqb (templateId t) tid && String.eqb (templateUserId t) uid)
       (packingTemplates db).

(** [prisma.plannedTrip.findFirst({ where: { id, userId } })]. *)
Definition findOwnTrip (db : PackingDb) (tid uid : string) : option PlannedTrip :=
  find (fun t => String.eqb (plannedTripId t) tid && String.eqb (userId t) uid)
       (packingTrips db).

(** [router.delete('/:id', authenticateToken, ...)]. *)
Definition deleteTemplate (db : PackingDb) (req : PackingRequest)
  : PackingDb * Reply string :=
  match findTemplate db (packTemplateId req) (packUserId req) with
  | None => (db, Refused 404 "Template not found")
  | Some _ =>
      (mkPackingDb (packingTrips db)
                   (filter (fun t => negb (String.eqb (templateId t) (packTemplateId req)))
                           (packingTemplates db))
                   (checklists db),
       Answered 200 "Template deleted successfully"%string)
  end.

(** [data: { checklist }] written to the row of trip [tid]. *)
Fixpoint setChecklist (tid : string) (items : list ChecklistItem)
  (l : list (string * list ChecklistItem)) : list (string * list ChecklistItem) :=
  match l with
  | [] => [(tid, items)]
  | (k, v) :: r =>
      if String.eqb k tid then (k, items) :: r else (k, v) :: setChecklist tid items r
  end.

(** The [checklist] of trip [tid]. *)
Fixpoint getChecklist (tid : string) (l : list (string * list ChecklistItem))
  : option (list ChecklistItem) :=
  match l with
  | [] => None
  | (k, v) :: r => if String.eqb k tid then Some v else getChecklist tid r
  end.

(** [router.post('/:id/apply/:tripId', authenticateToken, ...)]: the answer
    carries the checklist of the updated trip. *)
Definition applyTemplate (db : PackingDb) (req : PackingRequest)
  : PackingDb * Reply (list ChecklistItem) :=
  match findTemplate db (packTemplateId req) (packUserId req) with
  | None => (db, Refused 404 "Template not found")
  | Some template =>
      match findOwnTrip db (packTripId req) (packUserId req) with
      | None => (db, Refused 404 "Trip not found")
      | Some trip =>
          let newChecklist := mapIndexed checklistItem (templateItems template) in
          (mkPackingDb (packingTrips db) (packingTemplates db)
                       (setChecklist (packTripId req) newChecklist (checklists db)),
           Answered 200 newChecklist)
      end
  end.

(** One call of a packing route that writes. *)
Inductive PackingCall : Type :=
| CallSave (newId : string) (req : PackingRequest) (body : TemplateBody)
| CallDelete (req : PackingRequest)
| CallApply (req : PackingRequest).

Definition performPacking (db : PackingDb) (c : PackingCall) : PackingDb :=
  match c with
  | CallSave newId req body => fst (saveTemplate newId db req body)
  | CallDelete req => fst (deleteTemplate db req)
  | CallApply req => fst (applyTemplate db req)
  end.

(** The tables after a sequence of calls, started without a template. *)
Definition packingAfter (trips : list PlannedTrip)
  (lists : list (string * list ChecklistItem)) (calls : list PackingCall) : PackingDb :=
  fold_left performPacking calls (mkPackingDb trips [] lists).

(** Items numbered from 1 in their order, none of them completed. *)
Definition numbered (items : list ChecklistItem) : Prop :=
  map checkId items = seq 1 (List.length items) /\
  Forall (fun item => checkCompleted item = false) items.

(** * Facts about the balances object *)

Section ObjectFacts.













Lemma zero_fold_objSet ps o :
  Forall (fun kv => balanceAmount (snd kv) == 0) o ->
  Forall (fun kv => balanceAmount (snd kv) == 0)
    (fold_left (fun b p => objSet (id p) (mkBalance (name p) 0) b) ps o).
Proof.
  revert o. induction ps as [|p ps IH]; intros o Ho; simpl; [assumption|].
  apply IH. clear IH.
  induction o as [|[k0 v0] o IHo]; simpl.
  - constructor; [simpl; reflexivity|constructor].
  - inversion Ho; subst.
    destruct (String.eqb (id p) k0); constructor; simpl; auto. reflexivity.
Qed.



End ObjectFacts.

(** * The balances sum to zero *)

Section ZeroSum.

Variable ps : list TripParticipant.




End ZeroSum.



(** * Facts about numbers *)

Section NumberFacts.

Lemma Qltb_lt x y : Qltb x y = true <-> x < y.
Proof.
  unfold Qltb. rewrite negb_true_iff.
  destruct (Qle_bool y x) eqn:E.
  - apply Qle_bool_iff in E. split; [discriminate|]. intros H. lra.
  - split; [|reflexivity]. intros _.
    destruct (Qlt_le_dec x y) as [H|H]; [exact H|].
    apply Qle_bool_iff in H. congruence.
Qed.

Lemma Qltb_ge x y : Qltb x y = false <-> y <= x.
Proof.
  destruct (Qltb x y) eqn:E.
  - apply Qltb_lt in E. split; [discriminate|]. intros H. lra.
  - split; [|reflexivity]. intros _.
    destruct (Qlt_le_dec x y) as [H|H]; [|exact H].
    apply Qltb_lt in H. congruence.
Qed.

Lemma hundredths n : (n # 100) * 100 == inject_Z n.
Proof. unfold Qeq, Qmult, inject_Z. simpl. lia. Qed.


Lemma hundredths_div n : (n # 100) == inject_Z n / 100.
Proof. apply Qmake_Qdiv. Qed.

(** The rounded number is a whole number of hundredths. *)
Lemma toFixed2_hundredths x : exists n : Z, toFixed2 x == inject_Z n / 100.
Proof.
  unfold toFixed2. destruct (Qltb x 0).
  - exists (- Qfloor (- x * 100 + (1 # 2)))%Z.
    rewrite inject_Z_opp, hundredths_div. field.
  - exists (Qfloor (x * 100 + (1 # 2))). apply hundredths_div.
Qed.

(** A number above the threshold rounds to the threshold or more. *)
Lemma toFixed2_above x : eps < x -> eps <= toFixed2 x.
Proof.
  intros Hx. unfold eps in *. unfold toFixed2.
  assert (E : Qltb x 0 = false) by (apply Qltb_ge; lra).
  rewrite E.
  assert (Hn : (Qfloor 1 <= Qfloor (x * 100 + (1 # 2)))%Z).
  { apply Qfloor_resp_le. lra. }
  change (Qfloor 1) with 1%Z in Hn.
  pose proof (hundredths (Qfloor (x * 100 + (1 # 2)))) as Hh.
  assert (Hq : inject_Z 1 <= inject_Z (Qfloor (x * 100 + (1 # 2)))).
  { rewrite <- Zle_Qle. exact Hn. }
  change (inject_Z 1) with 1 in Hq. lra.
Qed.

End NumberFacts.

(** * The sort *)

(** [insertBy] and [sortBy] stand for [Array.prototype.sort]: the result is
    a permutation of the array, it is in the order the comparator asks for,
    and elements that compare equal keep their relative order. *)
Section SortFacts.

Variable compare : Party -> Party -> Q.

Lemma insertBy_perm x l : Permutation (insertBy compare x l) (x :: l).
Proof.
  induction l as [|y r IH]; simpl; [reflexivity|].
  destruct (Qle_bool (compare x y) 0); [reflexivity|].
  rewrite IH. apply perm_swap.
Qed.

Lemma sortBy_perm l : Permutation (sortBy compare l) l.
Proof.
  induction l as [|x r IH]; simpl; [reflexivity|].
  rewrite insertBy_perm. now apply perm_skip.
Qed.

Lemma insertBy_filter (P : Party -> bool) x l :
  (forall y, In y l -> P x = true -> P y = true -> compare x y <= 0) ->
  filter P (insertBy compare x l) = filter P (x :: l).
Proof.
  induction l as [|y r IH]; intros Hle; [reflexivity|].
  cbn [insertBy]. destruct (Qle_bool (compare x y) 0) eqn:E; [reflexivity|].
  cbn [filter]. rewrite IH by (intros z Hz; apply Hle; now right).
  cbn [filter]. destruct (P x) eqn:Ex; destruct (P y) eqn:Ey; try reflexivity.
  exfalso. assert (H : compare x y <= 0) by (apply Hle; simpl; auto).
  apply Qle_bool_iff in H. congruence.
Qed.

(** Stability: the elements of any class whose members compare equal come
    out in the order they went in. *)
Lemma sortBy_stable (P : Party -> bool) l :
  (forall x y, P x = true -> P y = true -> compare x y <= 0) ->
  filter P (sortBy compare l) = filter P l.
Proof.
  intros Hle. induction l as [|x r IH]; [reflexivity|].
  cbn [sortBy]. rewrite insertBy_filter by (intros; now apply Hle).
  cbn [filter]. now rewrite IH.
Qed.

Hypothesis compare_total : forall x y, compare x y <= 0 \/ compare y x <= 0.
Hypothesis compare_trans :
  forall x y z, compare x y <= 0 -> compare y z <= 0 -> compare x z <= 0.

Lemma insertBy_sorted x l :
  StronglySorted (fun a b => compare a b <= 0) l ->
  StronglySorted (fun a b => compare a b <= 0) (insertBy compare x l).
Proof.
  induction 1 as [|y r Hr IH Hy]; cbn [insertBy].
  - repeat constructor.
  - destruct (Qle_bool (compare x y) 0) eqn:E.
    + apply Qle_bool_iff in E. constructor; [now constructor|].
      constructor; [exact E|].
      eapply Forall_impl; [|exact Hy]. intros z Hz. now apply (compare_trans x y z).
    + constructor; [exact IH|].
      assert (Hyx : compare y x <= 0).
      { destruct (compare_total x y) as [H|H]; [|exact H].
        apply Qle_bool_iff in H. congruence. }
      eapply Permutation_Forall; [symmetry; apply insertBy_perm|].
      constructor; assumption.
Qed.

Lemma sortBy_sorted l : StronglySorted (fun a b => compare a b <= 0) (sortBy compare l).
Proof.
  induction l as [|x r IH]; cbn [sortBy]; [constructor|]. now apply insertBy_sorted.
Qed.

End SortFacts.

Lemma sorted_weaken (R R' : Party -> Party -> Prop) l :
  (forall a b, R a b -> R' a b) -> StronglySorted R l -> StronglySorted R' l.
Proof.
  intros HR. induction 1 as [|x l _ IH Hx]; constructor; [exact IH|].
  eapply Forall_impl; [|exact Hx]. intros b. apply HR.
Qed.

(** The debtors come out most negative first, the creditors most positive
    first, equal amounts in the order of [Object.entries]. *)
Lemma sortDebtors_sorted l :
  StronglySorted (fun a b => partyAmount a <= partyAmount b) (sortDebtors l).
Proof.
  apply (sorted_weaken (fun a b => partyAmount a - partyAmount b <= 0)).
  - intros a b Hab. lra.
  - apply sortBy_sorted.
    + intros x y. destruct (Qlt_le_dec (partyAmount x) (partyAmount y)); lra.
    + intros x y z. lra.
Qed.

Lemma sortCreditors_sorted l :
  StronglySorted (fun a b => partyAmount b <= partyAmount a) (sortCreditors l).
Proof.
  apply (sorted_weaken (fun a b => partyAmount b - partyAmount a <= 0)).
  - intros a b Hab. lra.
  - apply sortBy_sorted.
    + intros x y. destruct (Qlt_le_dec (partyAmount x) (partyAmount y)); lra.
    + intros x y z. lra.
Qed.

Lemma sortDebtors_stable q l :
  filter (fun p => Qeq_bool (partyAmount p) q) (sortDebtors l)
  = filter (fun p => Qeq_bool (partyAmount p) q) l.
Proof.
  apply sortBy_stable. intros x y Hx Hy.
  apply Qeq_bool_iff in Hx. apply Qeq_bool_iff in Hy. lra.
Qed.

Lemma sortCreditors_stable q l :
  filter (fun p => Qeq_bool (partyAmount p) q) (sortCreditors l)
  = filter (fun p => Qeq_bool (partyAmount p) q) l.
Proof.
  apply sortBy_stable. intros x y Hx Hy.
  apply Qeq_bool_iff in Hx. apply Qeq_bool_iff in Hy. lra.
Qed.

(** * The matching loop *)

Section LoopFacts.

(** Reasoning along a run of the loop: what holds of the empty list of debts
    in every state where the loop stops, and is kept when a turn puts its
    debts in front, holds of the debts of every run that ends. *)
Lemma resolveLoop_run (P : list Party -> list Party -> list Debt -> Prop) :
  (forall ds cs, ds = [] \/ cs = [] -> P ds cs []) ->
  (forall d ds c cs later,
      P (debtorsRest (debtorAfter d c) ds) (creditorsRest (creditorAfter d c) cs) later ->
      P (d :: ds) (c :: cs) (pushed d c ++ later)) ->
  forall fuel ds cs debts, resolveLoop fuel ds cs = Some debts -> P ds cs debts.
Proof.
  intros Hstop Hturn. induction fuel as [|fuel IH]; intros ds cs debts H.
  - destruct ds as [|d ds]; [injection H as <-; auto|].
    destruct cs as [|c cs]; [injection H as <-; auto|discriminate].
  - destruct ds as [|d ds]; [injection H as <-; auto|].
    destruct cs as [|c cs]; [injection H as <-; auto|].
    cbn [resolveLoop] in H.
    destruct (resolveLoop fuel _ _) as [later|] eqn:El; [|discriminate].
    injection H as <-. apply Hturn. now apply IH.
Qed.

Lemma debtorsOf_ok o : Forall debtorOk (debtorsOf o).
Proof.
  unfold debtorsOf. apply Forall_map. apply Forall_forall.
  intros kv Hkv. apply filter_In in Hkv. destruct Hkv as [_ H].
  apply Qltb_lt in H. unfold debtorOk. simpl. lra.
Qed.

Lemma creditorsOf_ok o : Forall creditorOk (creditorsOf o).
Proof.
  unfold creditorsOf. apply Forall_map. apply Forall_forall.
  intros kv Hkv. apply filter_In in Hkv. destruct Hkv as [_ H].
  apply Qltb_lt in H. unfold creditorOk. simpl. lra.
Qed.

Lemma sortDebtors_ok o : Forall debtorOk (sortDebtors (debtorsOf o)).
Proof.
  eapply Permutation_Forall; [|apply debtorsOf_ok].
  symmetry. apply sortBy_perm.
Qed.

Lemma sortCreditors_ok o : Forall creditorOk (sortCreditors (creditorsOf o)).
Proof.
  eapply Permutation_Forall; [|apply creditorsOf_ok].
  symmetry. apply sortBy_perm.
Qed.

(** The amount moved in a turn is the whole debt or the whole credit. *)
Lemma transfer_cases d c :
  debtorOk d -> creditorOk c ->
  eps <= transferAmount d c /\
  ((transferAmount d c == - partyAmount d /\ - partyAmount d <= partyAmount c) \/
   (transferAmount d c == partyAmount c /\ partyAmount c <= - partyAmount d)).
Proof.
  unfold debtorOk, creditorOk, transferAmount, eps. intros Hd Hc.
  assert (Ha : Qabs (partyAmount d) == - partyAmount d)
    by (apply Qabs_neg; lra).
  destruct (Q.min_spec (Qabs (partyAmount d)) (partyAmount c)) as [[H1 H2]|[H1 H2]];
    rewrite H2; split; lra.
Qed.

Lemma debtorsRest_cases d' rest :
  (Qabs (partyAmount d') < eps /\ debtorsRest d' rest = rest) \/
  (eps <= Qabs (partyAmount d') /\ debtorsRest d' rest = d' :: rest).
Proof.
  unfold debtorsRest, debtorSettled. destruct (Qltb (Qabs (partyAmount d')) eps) eqn:E.
  - left. split; [now apply Qltb_lt|reflexivity].
  - right. split; [now apply Qltb_ge|reflexivity].
Qed.

Lemma creditorsRest_cases c' rest :
  (partyAmount c' < eps /\ creditorsRest c' rest = rest) \/
  (eps <= partyAmount c' /\ creditorsRest c' rest = c' :: rest).
Proof.
  unfold creditorsRest, creditorSettled. destruct (Qltb (partyAmount c') eps) eqn:E.
  - left. split; [now apply Qltb_lt|reflexivity].
  - right. split; [now apply Qltb_ge|reflexivity].
Qed.

Lemma Qabs_zero x : x == 0 -> Qabs x < eps.
Proof. intros H. rewrite H. unfold eps. simpl. lra. Qed.

(** One of the two elements is settled exactly, and its index moves on. *)
Lemma turn_advances d ds c cs :
  debtorOk d -> creditorOk c ->
  (partyAmount (debtorAfter d c) == 0 /\ debtorsRest (debtorAfter d c) ds = ds) \/
  (partyAmount (creditorAfter d c) == 0 /\ creditorsRest (creditorAfter d c) cs = cs).
Proof.
  intros Hd Hc.
  destruct (transfer_cases d c Hd Hc) as [_ [[Ha _]|[Ha _]]].
  - left. assert (Hz : partyAmount (debtorAfter d c) == 0)
      by (cbn [partyAmount debtorAfter]; lra).
    split; [exact Hz|].
    destruct (debtorsRest_cases (debtorAfter d c) ds) as [[_ E]|[H _]]; [exact E|].
    apply Qabs_zero in Hz. lra.
  - right. assert (Hz : partyAmount (creditorAfter d c) == 0)
      by (cbn [partyAmount creditorAfter]; lra).
    split; [exact Hz|].
    destruct (creditorsRest_cases (creditorAfter d c) cs) as [[_ E]|[H _]]; [exact E|].
    unfold eps in H. lra.
Qed.

Lemma debtorsRest_ok d ds c :
  debtorOk d -> creditorOk c -> Forall debtorOk ds ->
  Forall debtorOk (debtorsRest (debtorAfter d c) ds).
Proof.
  intros Hd Hc Hds.
  destruct (debtorsRest_cases (debtorAfter d c) ds) as [[_ E]|[H E]];
    rewrite E; [exact Hds|].
  constructor; [|exact Hds].
  destruct (transfer_cases d c Hd Hc) as [_ Ha].
  unfold debtorOk in *. cbn [partyAmount debtorAfter] in *.
  assert (Hle : partyAmount d + transferAmount d c <= 0) by (destruct Ha; lra).
  rewrite Qabs_neg in H by exact Hle. lra.
Qed.

Lemma creditorsRest_ok d c cs :
  debtorOk d -> creditorOk c -> Forall creditorOk cs ->
  Forall creditorOk (creditorsRest (creditorAfter d c) cs).
Proof.
  intros Hd Hc Hcs.
  destruct (creditorsRest_cases (creditorAfter d c) cs) as [[_ E]|[H E]];
    rewrite E; [exact Hcs|].
  constructor; [|exact Hcs]. exact H.
Qed.

Lemma turn_shrinks d ds c cs :
  debtorOk d -> creditorOk c ->
  (List.length (debtorsRest (debtorAfter d c) ds)
   + List.length (creditorsRest (creditorAfter d c) cs)
   < List.length (d :: ds) + List.length (c :: cs))%nat.
Proof.
  intros Hd Hc.
  destruct (debtorsRest_cases (debtorAfter d c) ds) as [[_ E1]|[_ E1]];
    destruct (creditorsRest_cases (creditorAfter d c) cs) as [[_ E2]|[_ E2]];
    destruct (turn_advances d ds c cs Hd Hc) as [[_ E]|[_ E]];
    rewrite ?E1, ?E2; simpl; try lia.
  - rewrite E1 in E. apply (f_equal (@List.length Party)) in E. simpl in E. lia.
  - rewrite E2 in E. apply (f_equal (@List.length Party)) in E. simpl in E. lia.
Qed.

(** The loop on its variables is the loop on the slices. *)
Lemma skipn_nth_error {A : Type} (l : list A) k x :
  nth_error l k = Some x -> skipn k l = x :: skipn (S k) l.
Proof.
  revert k. induction l as [|y l IH]; intros [|k] H; try discriminate.
  - injection H as ->. reflexivity.
  - cbn [nth_error] in H. change (skipn (S k) (y :: l)) with (skipn k l).
    now rewrite (IH k H).
Qed.

Lemma skipn_nth_none {A : Type} (l : list A) k :
  nth_error l k = None -> skipn k l = [].
Proof.
  intros H. apply nth_error_None in H. now apply skipn_all2.
Qed.

Lemma skipn_setNth_after {A : Type} (l : list A) k x :
  skipn (S k) (setNth k x l) = skipn (S k) l.
Proof.
  revert k. induction l as [|y l IH]; intros [|k]; try reflexivity.
  change (skipn (S k) (setNth k x l) = skipn (S k) l). apply IH.
Qed.

Lemma skipn_setNth_at {A : Type} (l : list A) k x y :
  nth_error l k = Some y -> skipn k (setNth k x l) = x :: skipn (S k) l.
Proof.
  revert k. induction l as [|z l IH]; intros [|k] H; try discriminate.
  - reflexivity.
  - cbn [nth_error] in H. change (skipn k (setNth k x l) = x :: skipn (S k) l).
    now apply IH.
Qed.


(** What a turn reads and what it leaves. *)
Lemma turn_inv s s' :
  turn s = Some s' ->
  exists d c,
    nth_error (debtors s) (i s) = Some d /\
    nth_error (creditors s) (j s) = Some c /\
    s' = mkLoop (setNth (i s) (debtorAfter d c) (debtors s))
                (setNth (j s) (creditorAfter d c) (creditors s))
                (if debtorSettled (debtorAfter d c) then S (i s) else i s)
                (if creditorSettled (creditorAfter d c) then S (j s) else j s)
                (debts s ++ pushed d c).
Proof.
  unfold turn. destruct (nth_error (debtors s) (i s)) as [d|]; [|discriminate].
  destruct (nth_error (creditors s) (j s)) as [c|]; [|discriminate].
  intros H. injection H as <-. exists d, c. auto.
Qed.

Lemma turn_none s :
  turn s = None ->
  skipn (i s) (debtors s) = [] \/ skipn (j s) (creditors s) = [].
Proof.
  unfold turn. destruct (nth_error (debtors s) (i s)) as [d|] eqn:Ed.
  - destruct (nth_error (creditors s) (j s)) as [c|] eqn:Ec; [discriminate|].
    intros _. right. now apply skipn_nth_none.
  - intros _. left. now apply skipn_nth_none.
Qed.

Lemma turn_slices s s' :
  turn s = Some s' ->
  exists d c,
    skipn (i s) (debtors s) = d :: skipn (S (i s)) (debtors s) /\
    skipn (j s) (creditors s) = c :: skipn (S (j s)) (creditors s) /\
    skipn (i s') (debtors s')
    = debtorsRest (debtorAfter d c) (skipn (S (i s)) (debtors s)) /\
    skipn (j s') (creditors s')
    = creditorsRest (creditorAfter d c) (skipn (S (j s)) (creditors s)) /\
    debts s' = debts s ++ pushed d c.
Proof.
  intros H. destruct (turn_inv s s' H) as (d & c & Hd & Hc & ->).
  exists d, c. cbn [debtors creditors i j debts].
  split; [now apply skipn_nth_error|]. split; [now apply skipn_nth_error|].
  unfold debtorsRest, creditorsRest. split; [|split; [|reflexivity]].
  - destruct (debtorSettled (debtorAfter d c)).
    + apply skipn_setNth_after.
    + eapply skipn_setNth_at. exact Hd.
  - destruct (creditorSettled (creditorAfter d c)).
    + apply skipn_setNth_after.
    + eapply skipn_setNth_at. exact Hc.
Qed.

Lemma run_slices fuel : forall s,
  run fuel s
  = match resolveLoop fuel (skipn (i s) (debtors s)) (skipn (j s) (creditors s)) with
    | Some later => Some (debts s ++ later)
    | None => None
    end.
Proof.
  induction fuel as [|fuel IH]; intros s; cbn [run];
    destruct (turn s) as [s'|] eqn:E.
  - destruct (turn_slices s s' E) as (d & c & -> & -> & _). reflexivity.
  - destruct (turn_none s E) as [-> | ->].
    + cbn [resolveLoop]. now rewrite app_nil_r.
    + destruct (skipn (i s) (debtors s)); cbn [resolveLoop]; now rewrite app_nil_r.
  - rewrite IH.
    destruct (turn_slices s s' E) as (d & c & Hd & Hc & -> & -> & ->).
    rewrite Hd, Hc. cbn [resolveLoop].
    destruct (resolveLoop fuel _ _) as [later|]; [|reflexivity].
    now rewrite app_assoc.
  - destruct (turn_none s E) as [-> | ->].
    + cbn [resolveLoop]. now rewrite app_nil_r.
    + destruct (skipn (i s) (debtors s)); cbn [resolveLoop]; now rewrite app_nil_r.
Qed.

Lemma resolveDebts_slices balances :
  resolveDebts balances
  = resolveLoop (List.length (sortDebtors (debtorsOf balances))
                 + List.length (sortCreditors (creditorsOf balances)))
                (sortDebtors (debtorsOf balances))
                (sortCreditors (creditorsOf balances)).
Proof.
  unfold resolveDebts. rewrite run_slices. cbn [i j debtors creditors debts skipn].
  now destruct (resolveLoop _ _ _).
Qed.

(** With as many turns allowed as there are elements, the loop ends. *)
Lemma resolveLoop_ends fuel : forall ds cs,
  Forall debtorOk ds -> Forall creditorOk cs ->
  (List.length ds + List.length cs <= fuel)%nat ->
  exists debts, resolveLoop fuel ds cs = Some debts.
Proof.
  induction fuel as [|fuel IH]; intros ds cs Hds Hcs Hlen.
  - destruct ds; [|simpl in Hlen; lia]. exists []. reflexivity.
  - destruct ds as [|d ds]; [exists []; reflexivity|].
    destruct cs as [|c cs]; [exists []; reflexivity|].
    inversion Hds; subst. inversion Hcs; subst.
    destruct (IH (debtorsRest (debtorAfter d c) ds) (creditorsRest (creditorAfter d c) cs))
      as [later Hlater].
    + now apply debtorsRest_ok.
    + now apply creditorsRest_ok.
    + pose proof (turn_shrinks d ds c cs) as Hs. simpl in Hs, Hlen.
      specialize (Hs ltac:(assumption) ltac:(assumption)). lia.
    + exists (pushed d c ++ later). cbn [resolveLoop]. now rewrite Hlater.
Qed.

Lemma resolveDebts_ends balances : exists debts, resolveDebts balances = Some debts.
Proof.
  rewrite resolveDebts_slices. apply resolveLoop_ends.
  - apply sortDebtors_ok.
  - apply sortCreditors_ok.
  - lia.
Qed.


End LoopFacts.



(** * Expenses split with nobody *)

(** After the aggregation of [unsplit] (50, paid by A, split with nobody)
    the balance of A is still zero, and the balances still sum to zero. *)
Lemma unsplit_scenario :
  let ps := [Scenario.A; Scenario.B] in
  let o := computeBalances ps [Scenario.unsplit] in
  splitWithIds Scenario.unsplit = [] /\
  In (paidById Scenario.unsplit) (keys (initBalances ps)) /\
  amountOf "id-a" (initBalances ps) == 0 /\
  amountOf "id-a" o == 0 /\
  sumBalances o == 0.
Proof.
  cbv zeta. repeat split. simpl. tauto.
Qed.

(** Against C3 as stated: it is not so that the payer of every expense with
    an empty [splitWithIds] is credited the amount of the expense.  The
    payer of [unsplit] stays at 0 instead of going to 50. *)
Lemma empty_split_credits_nothing :
  ~ (forall (balances : Balances) (expense : Expense),
        splitWithIds expense = [] ->
        In (paidById expense) (keys balances) ->
        amountOf (paidById expense) (applyExpense balances expense)
        == amountOf (paidById expense) balances + amount expense).
Proof.
  intros Hclaim.
  destruct unsplit_scenario as (Hs & Hk & _).
  specialize (Hclaim (initBalances [Scenario.A; Scenario.B]) Scenario.unsplit Hs Hk).
  vm_compute in Hclaim. discriminate.
Qed.

(** C3, amended. An expense whose [splitWithIds] is empty is skipped as a
    whole: the guard on the length encloses the credit as well as the
    debits, so the balances are left as they were (the payer is not
    credited and the sum of the balances does not change). *)
Theorem empty_split_is_skipped (balances : Balances) (expense : Expense) :
  splitWithIds expense = [] ->
  applyExpense balances expense = balances /\
  amountOf (paidById expense) (applyExpense balances expense)
  == amountOf (paidById expense) balances /\
  sumBalances (applyExpense balances expense) == sumBalances balances.
Proof.
  intros H. unfold applyExpense. rewrite H. simpl. repeat split; reflexivity.
Qed.

Lemma empty_split_is_skipped_witness :
  applyExpense (initBalances [Scenario.A; Scenario.B]) Scenario.unsplit
  = initBalances [Scenario.A; Scenario.B].
Proof.
  apply (empty_split_is_skipped (initBalances [Scenario.A; Scenario.B]) Scenario.unsplit).
  reflexivity.
Defined.

(** * The amounts of the debts *)

Section DebtAmounts.

Lemma pushed_ok d c : Forall emittedOk (pushed d c).
Proof.
  unfold pushed. destruct (Qltb eps (transferAmount d c)) eqn:E; [|constructor].
  constructor; [|constructor].
  exists (transferAmount d c). split; [now apply Qltb_lt|reflexivity].
Qed.

Lemma resolveLoop_emitted fuel ds cs debts :
  resolveLoop fuel ds cs = Some debts -> Forall emittedOk debts.
Proof.
  revert fuel ds cs debts. apply resolveLoop_run.
  - constructor.
  - intros d ds c cs later IH. apply Forall_app. split; [apply pushed_ok|exact IH].
Qed.

End DebtAmounts.

(** For the expense [tiny] (0.012, paid by A, split with B) the transfer
    amount is 0.012, above 0.01, and the one debt emitted carries
    [0.012.toFixed(2)], which is 0.01. *)
Lemma tiny_scenario :
  exists t,
    resolveDebts (computeBalances [Scenario.A; Scenario.B] [Scenario.tiny]) = Some [t] /\
    debtFrom t = "B"%string /\ debtTo t = "A"%string /\
    debtAmount t == eps.
Proof.
  eexists. split; [vm_compute; reflexivity|]. repeat split.
Qed.

(** Against C4 as stated: the amount placed in the output is not always
    strictly greater than 0.01. *)
Lemma emitted_amount_at_threshold :
  ~ (forall (balances : Balances) (debts : list Debt),
        resolveDebts balances = Some debts ->
        Forall (fun t => eps < debtAmount t /\
                         exists n : Z, debtAmount t == inject_Z n / 100) debts).
Proof.
  intros Hclaim.
  destruct tiny_scenario as (t & Hr & _ & _ & Ht).
  specialize (Hclaim _ _ Hr). inversion Hclaim as [|? ? [Hlt _] _]; subst.
  rewrite Ht in Hlt. revert Hlt. vm_compute. discriminate.
Qed.

(** C4, amended. On every input the loop returns its list, and every debt
    in it carries the rounding to two decimal places of a transfer amount
    strictly greater than 0.01; the rounded amount itself is a whole number
    of hundredths and is at least 0.01 (it is 0.01 for transfer amounts
    below 0.015). *)
Theorem emitted_amounts (balances : Balances) :
  exists debts,
    resolveDebts balances = Some debts /\
    Forall (fun t =>
              (exists a, eps < a /\ debtAmount t = toFixed2 a) /\
              (exists n : Z, debtAmount t == inject_Z n / 100) /\
              eps <= debtAmount t) debts.
Proof.
  destruct (resolveDebts_ends balances) as [debts H].
  exists debts. split; [exact H|].
  rewrite resolveDebts_slices in H. apply resolveLoop_emitted in H.
  eapply Forall_impl; [|exact H].
  intros t [a [Ha Ht]]. split; [exists a; auto|]. rewrite Ht. split.
  - apply toFixed2_hundredths.
  - now apply toFixed2_above.
Qed.

(** * The single-expense scenario *)

(** C6. With participants A, B and C and the one expense of 90 paid by A and
    split with A, B and C, the balances are A: 60, B: -30, C: -30, and the
    debts are a transfer of 30 from B to A followed by a transfer of 30 from
    C to A, 60 in total to A. *)
Theorem single_expense_scenario :
  let ps := [Scenario.A; Scenario.B; Scenario.C] in
  let balances := computeBalances ps [Scenario.dinner] in
  sameBalances balances
    [("id-a"%string, mkBalance "A" 60);
     ("id-b"%string, mkBalance "B" (-30));
     ("id-c"%string, mkBalance "C" (-30))] /\
  exists debts,
    resolveDebts balances = Some debts /\
    sameDebts debts [mkDebt "B" "A" 30; mkDebt "C" "A" 30] /\
    fold_right (fun t s => (if String.eqb (debtTo t) "A" then debtAmount t else 0) + s)
               0 debts == 60.
Proof.
  cbv zeta. split.
  - vm_compute. repeat constructor.
  - eexists. split; [vm_compute; reflexivity|]. split.
    + repeat constructor.
    + vm_compute. reflexivity.
Qed.

(** * Totals *)

Section Totals.




End Totals.



(** * Removing an expense *)

Section Removal.

Lemma withoutExpense_gone eid b e :
  In e (expenses (withoutExpense eid b)) -> expenseId e <> eid.
Proof.
  unfold withoutExpense. cbn [expenses]. intros H.
  apply filter_In in H. destruct H as [_ H].
  apply negb_true_iff in H. now apply String.eqb_neq in H.
Qed.

Lemma expenseDelete_found db eid b e :
  In b (tripBudgets db) -> In e (expenses b) -> expenseId e = eid ->
  expenseDelete db eid
  = Some (mkDb (plannedTrips db) (map (withoutExpense eid) (tripBudgets db))).
Proof.
  intros Hb He Hid. unfold expenseDelete.
  assert (E : existsb (hasExpense eid) (tripBudgets db) = true).
  { apply existsb_exists. exists b. split; [exact Hb|].
    unfold hasExpense. apply existsb_exists. exists e. split; [exact He|].
    now apply String.eqb_eq. }
  now rewrite E.
Qed.

End Removal.

(** C10. The handler that removes an expense checks neither ownership nor
    membership: what it does to the tables and what it answers is the same
    for any two callers sending the same request, and an expense with the
    requested id is removed, with a success answer, whoever the caller is
    and whichever budget and trip the expense belongs to. *)
Theorem delete_ignores_caller (db : Db) (caller1 caller2 trip eid : string) :
  deleteExpense db (mkRequest caller1 trip eid)
  = deleteExpense db (mkRequest caller2 trip eid) /\
  (forall b e,
      In b (tripBudgets db) -> In e (expenses b) -> expenseId e = eid ->
      exists db',
        deleteExpense db (mkRequest caller1 trip eid) = (db', mkResponse 200 SuccessBody) /\
        plannedTrips db' = plannedTrips db /\
        forall b' e', In b' (tripBudgets db') -> In e' (expenses b') -> expenseId e' <> eid).
Proof.
  split; [reflexivity|].
  intros b e Hb He Hid. unfold deleteExpense. cbn [reqExpenseId].
  rewrite (expenseDelete_found db eid b e Hb He Hid).
  eexists. split; [reflexivity|]. split; [reflexivity|].
  cbn [tripBudgets]. intros b' e' Hb' He'.
  apply in_map_iff in Hb'. destruct Hb' as [b0 [<- _]].
  eapply withoutExpense_gone. exact He'.
Qed.

(** [mallory], who owns neither the trip nor its budget, removes an expense
    of the trip of [alice] through the route of her own trip. *)
Lemma delete_ignores_caller_witness :
  exists db',
    deleteExpense Scenario.db (mkRequest "mallory" "trip-2" "exp-6")
    = (db', mkResponse 200 SuccessBody) /\
    forall b' e', In b' (tripBudgets db') -> In e' (expenses b') ->
                  expenseId e' <> "exp-6"%string.
Proof.
  destruct (proj2 (delete_ignores_caller Scenario.db "mallory" "alice" "trip-2" "exp-6")
              Scenario.overspent
              (mkExpense "exp-6" 100 "stay" "hotel" "id-a" ["id-a"; "id-b"]%string))
    as [db' [Hd [_ Hgone]]].
  - simpl. tauto.
  - simpl. tauto.
  - reflexivity.
  - exists db'. split; [exact Hd|exact Hgone].
Defined.

(** * Display names *)

Section Names.

Lemma names_objSet_in k v o x :
  In x (names (objSet k v o)) -> x = balanceName v \/ In x (names o).
Proof.
  induction o as [|[k0 v0] o IH]; simpl.
  - intuition.
  - destruct (String.eqb k k0); simpl; intuition.
Qed.

Lemma names_objSet_nodup k v o :
  NoDup (names o) -> ~ In (balanceName v) (names o) ->
  NoDup (names (objSet k v o)).
Proof.
  induction o as [|[k0 v0] o IH]; simpl; intros Hnd Hni.
  - constructor; [tauto|constructor].
  - inversion Hnd as [|? ? Hn0 Hnd']; subst.
    destruct (String.eqb k k0); simpl; constructor.
    + tauto.
    + exact Hnd'.
    + intros Hin. apply names_objSet_in in Hin. tauto.
    + apply IH; tauto.
Qed.

Lemma names_fold_objSet ps : forall o,
  NoDup (names o) -> NoDup (map name ps) ->
  (forall x, In x (map name ps) -> ~ In x (names o)) ->
  NoDup (names (fold_left (fun b p => objSet (id p) (mkBalance (name p) 0) b) ps o)).
Proof.
  induction ps as [|p ps IH]; intros o Ho Hps Hdis; simpl; [exact Ho|].
  inversion Hps as [|? ? Hp Hps']; subst.
  apply IH; [|exact Hps'|].
  - apply names_objSet_nodup; [exact Ho|]. apply Hdis. simpl. tauto.
  - intros x Hx Hin. apply names_objSet_in in Hin. simpl in Hin.
    destruct Hin as [->|Hin]; [tauto|]. apply (Hdis x); simpl; tauto.
Qed.

Lemma names_addAmount k d o : names (addAmount k d o) = names o.
Proof.
  induction o as [|[k0 v0] o IH]; simpl; [reflexivity|].
  destruct (String.eqb k k0); simpl; [reflexivity|]. now rewrite IH.
Qed.

Lemma names_subAmount k d o : names (subAmount k d o) = names o.
Proof.
  induction o as [|[k0 v0] o IH]; simpl; [reflexivity|].
  destruct (String.eqb k k0); simpl; [reflexivity|]. now rewrite IH.
Qed.

Lemma names_fold_subAmount d l : forall o,
  names (fold_left (fun b i => subAmount i d b) l o) = names o.
Proof.
  induction l as [|i l IH]; intros o; simpl; [reflexivity|].
  now rewrite IH, names_subAmount.
Qed.

Lemma names_applyExpense o e : names (applyExpense o e) = names o.
Proof.
  unfold applyExpense. destruct (0 <? _)%nat; [|reflexivity].
  now rewrite names_fold_subAmount, names_addAmount.
Qed.

Lemma names_computeBalances ps es :
  NoDup (map name ps) -> NoDup (names (computeBalances ps es)).
Proof.
  intros Hps. unfold computeBalances.
  assert (E : forall o, names (fold_left applyExpense es o) = names o).
  { induction es as [|e es IH]; intros o; simpl; [reflexivity|].
    now rewrite IH, names_applyExpense. }
  rewrite E. unfold initBalances.
  apply names_fold_objSet; [constructor|exact Hps|simpl; tauto].
Qed.

(** No participant is both a debtor and a creditor. *)
Lemma partition_names o :
  NoDup (names o) ->
  NoDup (partyNames (debtorsOf o) ++ partyNames (creditorsOf o)).
Proof.
  unfold debtorsOf, creditorsOf, partyNames, names.
  induction o as [|[k v] o IH]; simpl; intros Hnd; [constructor|].
  inversion Hnd as [|? ? Hni Hnd']; subst. specialize (IH Hnd').
  assert (Hsub : forall f x,
             In x (map partyName (map partyOf (filter f o))) ->
             In x (map (fun kv => balanceName (snd kv)) o)).
  { intros f x Hx. rewrite map_map in Hx. apply in_map_iff in Hx.
    destruct Hx as [kv [<- Hkv]]. apply filter_In in Hkv.
    apply in_map_iff. exists kv. simpl. tauto. }
  destruct (Qltb (balanceAmount v) (- eps)) eqn:E1;
    destruct (Qltb eps (balanceAmount v)) eqn:E2; simpl.
  - apply Qltb_lt in E1. apply Qltb_lt in E2. unfold eps in *. lra.
  - constructor; [|exact IH]. intros Hin. apply in_app_or in Hin.
    destruct Hin as [Hin|Hin]; apply Hsub in Hin; tauto.
  - apply (NoDup_Add (Add_app _ _ _)). split; [exact IH|].
    intros Hin. apply in_app_or in Hin.
    destruct Hin as [Hin|Hin]; apply Hsub in Hin; tauto.
  - exact IH.
Qed.

Lemma resolveLoop_names fuel ds cs debts :
  resolveLoop fuel ds cs = Some debts ->
  Forall (fun t => In (debtFrom t) (partyNames ds) /\ In (debtTo t) (partyNames cs)) debts.
Proof.
  revert fuel ds cs debts. apply resolveLoop_run.
  - constructor.
  - intros d ds c cs later IH. apply Forall_app. split.
    + unfold pushed. destruct (Qltb eps (transferAmount d c)); constructor;
        [simpl; tauto|constructor].
    + eapply Forall_impl; [|exact IH].
      intros t [Hf Ht]. split.
      * destruct (debtorsRest_cases (debtorAfter d c) ds) as [[_ E]|[_ E]];
          rewrite E in Hf; simpl in *; tauto.
      * destruct (creditorsRest_cases (creditorAfter d c) cs) as [[_ E]|[_ E]];
          rewrite E in Ht; simpl in *; tauto.
Qed.

Lemma sorted_names o :
  NoDup (names o) ->
  NoDup (partyNames (sortDebtors (debtorsOf o))
         ++ partyNames (sortCreditors (creditorsOf o))).
Proof.
  intros Hnd. eapply Permutation_NoDup; [|apply partition_names; exact Hnd].
  symmetry. apply Permutation_app; apply Permutation_map; apply sortBy_perm.
Qed.

End Names.

(** C5. When the display names of the participants are pairwise different,
    the loop returns its list and no debt in it has its [from] equal to its
    [to]: the payer of a debt is a participant whose balance was below
    -0.01, its payee one whose balance was above 0.01, and no balance is
    both. *)
Theorem no_self_transfer (ps : list TripParticipant) (es : list Expense) :
  NoDup (map name ps) ->
  exists debts,
    resolveDebts (computeBalances ps es) = Some debts /\
    Forall (fun t => debtFrom t <> debtTo t) debts.
Proof.
  intros Hps.
  destruct (resolveDebts_ends (computeBalances ps es)) as [debts H].
  exists debts. split; [exact H|].
  pose proof (sorted_names _ (names_computeBalances ps es Hps)) as Hnd.
  rewrite resolveDebts_slices in H. apply resolveLoop_names in H.
  eapply Forall_impl; [|exact H].
  intros t [Hf Ht] Heq. rewrite Heq in Hf.
  revert Hnd Hf Ht.
  generalize (partyNames (sortDebtors (debtorsOf (computeBalances ps es)))) as l1.
  generalize (partyNames (sortCreditors (creditorsOf (computeBalances ps es)))) as l2.
  intros l2 l1 Hnd Hf Ht.
  induction l1 as [|x l1 IH]; [contradiction|].
  simpl in Hnd. inversion Hnd as [|? ? Hx Hnd']; subst.
  destruct Hf as [->|Hf]; [|now apply IH].
  apply Hx. apply in_or_app. now right.
Qed.

Lemma no_self_transfer_witness :
  exists debts,
    resolveDebts (computeBalances [Scenario.A; Scenario.B; Scenario.C] [Scenario.dinner])
    = Some debts /\
    Forall (fun t => debtFrom t <> debtTo t) debts.
Proof.
  apply (no_self_transfer [Scenario.A; Scenario.B; Scenario.C] [Scenario.dinner]).
  repeat constructor; simpl; intuition discriminate.
Defined.

(** * Settling the balances with the emitted debts *)

Section Settlement.









End Settlement.

(** * How far the emitted debts are from settling the balances *)

Section LoopBounds.











End LoopBounds.

Section SettlementBound.













End SettlementBound.



(** Balances within the threshold are never matched: three participants who
    each paid 0.01 for D stay creditors of 0.01, no debt is emitted, and D
    stays at -0.03. *)
Lemma small_credits_stay_unsettled :
  let ps := [Scenario.A; Scenario.B; Scenario.C; Scenario.D] in
  let cent i payer := mkExpense i (1 # 100) "misc" "coin" payer ["id-d"%string] in
  let es := [cent "exp-a" "id-a"; cent "exp-b" "id-b"; cent "exp-c" "id-c"]%string in
  resolveDebts (computeBalances ps es) = Some [] /\
  amountOf "id-d" (applyDebts [] (computeBalances ps es)) == - (3 # 100).
Proof.
  cbv zeta. split; vm_compute; reflexivity.
Qed.

(** Two participants with the same display name cannot be told apart in
    the debts: when one owes the other 90, the one debt emitted goes from
    that name to that name, and applying it by name changes nothing. *)
Lemma shared_names_stay_unsettled :
  let ps := [mkParticipant "id-a" "Sam"; mkParticipant "id-b" "Sam"] in
  let es := [mkExpense "exp-8" 90 "stay" "room" "id-a" ["id-b"%string]] in
  exists t,
    resolveDebts (computeBalances ps es) = Some [t] /\
    debtFrom t = debtTo t /\
    amountOf "id-a" (applyDebts [t] (computeBalances ps es)) == 90 /\
    amountOf "id-b" (applyDebts [t] (computeBalances ps es)) == - 90.
Proof.
  cbv zeta. eexists. split; [vm_compute; reflexivity|].
  repeat split.
Qed.



(** * The settlement as a function of its input *)

Section Determinism.

Lemma Qltb_same x1 x2 y1 y2 : x1 == x2 -> y1 == y2 -> Qltb x1 y1 = Qltb x2 y2.
Proof. intros Hx Hy. unfold Qltb. now rewrite Hx, Hy. Qed.

Lemma toFixed2_same x1 x2 : x1 == x2 -> toFixed2 x1 = toFixed2 x2.
Proof.
  intros Hx. unfold toFixed2. rewrite (Qltb_same x1 x2 0 0 Hx (Qeq_refl 0)).
  assert (E1 : Qfloor (- x1 * 100 + (1 # 2)) = Qfloor (- x2 * 100 + (1 # 2)))
    by (apply Qfloor_comp; rewrite Hx; reflexivity).
  assert (E2 : Qfloor (x1 * 100 + (1 # 2)) = Qfloor (x2 * 100 + (1 # 2)))
    by (apply Qfloor_comp; rewrite Hx; reflexivity).
  now rewrite E1, E2.
Qed.















End Determinism.



(** * Further properties of the balance aggregation *)

Section Aggregation.













Lemma amountOf_unknown k o : ~ In k (keys o) -> amountOf k o = 0.
Proof.
  unfold amountOf. induction o as [|[k0 v0] o IH]; cbn [keys map fst objGet];
    intros Hni; [reflexivity|].
  destruct (String.eqb_spec k k0) as [->|Hne]; [exfalso; apply Hni; now left|].
  apply IH. intros Hin. apply Hni. now right.
Qed.


End Aggregation.






Section AggregationOrder.



End AggregationOrder.



Section AggregationSum.

Variable ps : list TripParticipant.








End AggregationSum.


(** * Further properties of the debt resolution *)

Section Resolution.

Lemma filter_none {A : Type} (f : A -> bool) l :
  Forall (fun x => f x = false) l -> filter f l = [].
Proof.
  induction 1 as [|x l Hx _ IH]; cbn [filter]; [reflexivity|]. now rewrite Hx.
Qed.

Lemma resolveLoop_stopped fuel ds cs :
  ds = [] \/ cs = [] -> resolveLoop fuel ds cs = Some [].
Proof.
  intros [-> | ->]; destruct fuel; cbn [resolveLoop]; try reflexivity;
    destruct ds; reflexivity.
Qed.

Lemma pushed_length d c : (List.length (pushed d c) <= 1)%nat.
Proof. unfold pushed. destruct (Qltb eps (transferAmount d c)); simpl; lia. Qed.

(** Each turn settles one element and pushes one debt at most. *)
Lemma resolveLoop_count fuel : forall ds cs result,
  Forall debtorOk ds -> Forall creditorOk cs ->
  resolveLoop fuel ds cs = Some result ->
  (List.length result <= List.length ds + List.length cs - 1)%nat.
Proof.
  induction fuel as [|fuel IH]; intros ds cs result Hds Hcs H.
  - destruct ds as [|d ds]; [injection H as <-; simpl; lia|].
    destruct cs as [|c cs]; [injection H as <-; simpl; lia|discriminate].
  - destruct ds as [|d ds]; [injection H as <-; simpl; lia|].
    destruct cs as [|c cs]; [injection H as <-; simpl; lia|].
    cbn [resolveLoop] in H.
    destruct (resolveLoop fuel _ _) as [later|] eqn:El; [|discriminate].
    injection H as <-.
    inversion Hds as [|? ? Hd Hds']; subst. inversion Hcs as [|? ? Hc Hcs']; subst.
    apply IH in El; [|now apply debtorsRest_ok|now apply creditorsRest_ok].
    pose proof (turn_shrinks d ds c cs Hd Hc) as Hs.
    pose proof (pushed_length d c) as Hp.
    rewrite length_app. cbn [List.length] in *. lia.
Qed.

Lemma partition_length o :
  (List.length (debtorsOf o) + List.length (creditorsOf o) <= List.length o)%nat.
Proof.
  unfold debtorsOf, creditorsOf. rewrite !length_map.
  induction o as [|[k v] o IH]; cbn [filter snd List.length]; [lia|].
  destruct (Qltb (balanceAmount v) (- eps)) eqn:E1;
    destruct (Qltb eps (balanceAmount v)) eqn:E2; cbn [List.length]; try lia.
  apply Qltb_lt in E1. apply Qltb_lt in E2. unfold eps in *. lra.
Qed.

Lemma sorted_head (R : Party -> Party -> Prop) x l y :
  StronglySorted R (x :: l) -> In y l -> R x y.
Proof.
  intros H Hin. inversion H as [|? ? _ Hall]; subst.
  rewrite Forall_forall in Hall. now apply Hall.
Qed.

End Resolution.

(** X5. When nobody owes more than 0.01, or nobody is owed more than 0.01,
    no debt is emitted; in particular none is when every balance is within
    0.01 of zero. *)
Theorem nothing_to_settle (balances : Balances) :
  Forall (fun kv => - eps <= balanceAmount (snd kv)) balances \/
  Forall (fun kv => balanceAmount (snd kv) <= eps) balances ->
  resolveDebts balances = Some [].
Proof.
  intros H. rewrite resolveDebts_slices. apply resolveLoop_stopped.
  destruct H as [H|H]; [left|right].
  - unfold debtorsOf. rewrite filter_none; [reflexivity|].
    eapply Forall_impl; [|exact H]. intros kv Hkv. now apply Qltb_ge.
  - unfold creditorsOf. rewrite filter_none; [reflexivity|].
    eapply Forall_impl; [|exact H]. intros kv Hkv. now apply Qltb_ge.
Qed.

Lemma nothing_to_settle_witness :
  resolveDebts [("id-a"%string, mkBalance "A" (1 # 100));
                ("id-b"%string, mkBalance "B" (- (1 # 200)));
                ("id-c"%string, mkBalance "C" (- (1 # 200)))] = Some [].
Proof.
  apply nothing_to_settle. left.
  repeat constructor; vm_compute; discriminate.
Defined.


(** X7. The loop emits fewer debts than there are participants: at most one
    less than the number of entries of the balances object. *)
Theorem fewer_debts_than_participants (balances : Balances) :
  exists result,
    resolveDebts balances = Some result /\
    (List.length result <= List.length balances - 1)%nat.
Proof.
  destruct (resolveDebts_ends balances) as [result H].
  exists result. split; [exact H|].
  rewrite resolveDebts_slices in H.
  apply resolveLoop_count in H; [|apply sortDebtors_ok|apply sortCreditors_ok].
  pose proof (partition_length balances) as Hp.
  unfold sortDebtors, sortCreditors in H.
  rewrite (Permutation_length (sortBy_perm _ (debtorsOf balances))) in H.
  rewrite (Permutation_length (sortBy_perm _ (creditorsOf balances))) in H.
  lia.
Qed.

(** X8. The matching is greedy: when somebody owes more than 0.01 and
    somebody is owed more than 0.01, the first debt emitted goes from a
    participant with the lowest balance of all to a participant with the
    highest balance of all, and carries the rounded minimum of what the one
    owes and what the other is owed. *)
Theorem first_debt_is_greedy (balances : Balances) :
  debtorsOf balances <> [] -> creditorsOf balances <> [] ->
  exists low high rest,
    In low balances /\ In high balances /\
    (forall kv, In kv balances ->
                balanceAmount (snd low) <= balanceAmount (snd kv) /\
                balanceAmount (snd kv) <= balanceAmount (snd high)) /\
    resolveDebts balances
    = Some (mkDebt (balanceName (snd low)) (balanceName (snd high))
                   (toFixed2 (Qmin (- balanceAmount (snd low))
                                   (balanceAmount (snd high))))
            :: rest).
Proof.
  intros Hd Hc.
  destruct (resolveDebts_ends balances) as [result H].
  rewrite resolveDebts_slices in H. rewrite resolveDebts_slices.
  pose proof (sortBy_perm (fun a b => partyAmount a - partyAmount b)
                          (debtorsOf balances)) as Pd.
  pose proof (sortBy_perm (fun a b => partyAmount b - partyAmount a)
                          (creditorsOf balances)) as Pc.
  pose proof (sortDebtors_sorted (debtorsOf balances)) as Sd.
  pose proof (sortCreditors_sorted (creditorsOf balances)) as Sc.
  fold sortDebtors in Pd. fold sortCreditors in Pc.
  destruct (sortDebtors (debtorsOf balances)) as [|d ds] eqn:Ed.
  { apply Permutation_nil in Pd. contradiction. }
  destruct (sortCreditors (creditorsOf balances)) as [|c cs] eqn:Ec.
  { apply Permutation_nil in Pc. contradiction. }
  assert (Hdin : In d (debtorsOf balances))
    by (eapply Permutation_in; [exact Pd|now left]).
  assert (Hcin : In c (creditorsOf balances))
    by (eapply Permutation_in; [exact Pc|now left]).
  unfold debtorsOf in Hdin. apply in_map_iff in Hdin.
  destruct Hdin as (low & <- & Hlow). apply filter_In in Hlow.
  destruct Hlow as [Hlow Hlowlt]. apply Qltb_lt in Hlowlt.
  unfold creditorsOf in Hcin. apply in_map_iff in Hcin.
  destruct Hcin as (high & <- & Hhigh). apply filter_In in Hhigh.
  destruct Hhigh as [Hhigh Hhighlt]. apply Qltb_lt in Hhighlt.
  assert (Hamount : transferAmount (partyOf low) (partyOf high)
                    == Qmin (- balanceAmount (snd low)) (balanceAmount (snd high))).
  { unfold transferAmount. cbn [partyOf partyAmount].
    apply Q.min_compat; [|reflexivity]. apply Qabs_neg. unfold eps in *. lra. }
  assert (Hpush : pushed (partyOf low) (partyOf high)
                  = [mkDebt (balanceName (snd low)) (balanceName (snd high))
                            (toFixed2 (Qmin (- balanceAmount (snd low))
                                            (balanceAmount (snd high))))]).
  { unfold pushed.
    assert (Hlt : eps < transferAmount (partyOf low) (partyOf high)).
    { rewrite Hamount.
      destruct (Q.min_spec (- balanceAmount (snd low)) (balanceAmount (snd high)))
        as [[_ E]|[_ E]]; rewrite E; unfold eps in *; lra. }
    apply Qltb_lt in Hlt. rewrite Hlt. cbn [partyOf partyName].
    now rewrite (toFixed2_same _ _ Hamount). }
  assert (Hfuel : exists fuel,
             (List.length (partyOf low :: ds) + List.length (partyOf high :: cs))%nat
             = S fuel) by (cbn [List.length]; eauto).
  destruct Hfuel as [fuel Hfuel]. rewrite Hfuel in H |- *.
  cbn [resolveLoop] in H |- *.
  destruct (resolveLoop fuel _ _) as [later|]; [|discriminate].
  exists low, high, later. rewrite Hpush.
  split; [exact Hlow|]. split; [exact Hhigh|]. split; [|reflexivity].
  intros kv Hkv. split.
  - destruct (Qltb (balanceAmount (snd kv)) (- eps)) eqn:E.
    + assert (Hin : In (partyOf kv) (partyOf low :: ds)).
      { eapply Permutation_in; [symmetry; exact Pd|].
        unfold debtorsOf. apply in_map. apply filter_In. tauto. }
      destruct Hin as [E'|Hin].
      * apply (f_equal partyAmount) in E'. cbn [partyOf partyAmount] in E'.
        rewrite E'. apply Qle_refl.
      * apply (sorted_head _ _ _ _ Sd) in Hin.
        cbn [partyOf partyAmount] in Hin. exact Hin.
    + apply Qltb_ge in E. lra.
  - destruct (Qltb eps (balanceAmount (snd kv))) eqn:E.
    + assert (Hin : In (partyOf kv) (partyOf high :: cs)).
      { eapply Permutation_in; [symmetry; exact Pc|].
        unfold creditorsOf. apply in_map. apply filter_In. tauto. }
      destruct Hin as [E'|Hin].
      * apply (f_equal partyAmount) in E'. cbn [partyOf partyAmount] in E'.
        rewrite E'. apply Qle_refl.
      * apply (sorted_head _ _ _ _ Sc) in Hin.
        cbn [partyOf partyAmount] in Hin. exact Hin.
    + apply Qltb_ge in E. lra.
Qed.

Lemma first_debt_is_greedy_witness :
  exists low high rest,
    In low (computeBalances [Scenario.A; Scenario.B; Scenario.C] [Scenario.dinner]) /\
    In high (computeBalances [Scenario.A; Scenario.B; Scenario.C] [Scenario.dinner]) /\
    resolveDebts (computeBalances [Scenario.A; Scenario.B; Scenario.C] [Scenario.dinner])
    = Some (mkDebt (balanceName (snd low)) (balanceName (snd high))
                   (toFixed2 (Qmin (- balanceAmount (snd low))
                                   (balanceAmount (snd high))))
            :: rest).
Proof.
  destruct (first_debt_is_greedy
              (computeBalances [Scenario.A; Scenario.B; Scenario.C] [Scenario.dinner]))
    as (low & high & rest & Hl & Hh & _ & Hr).
  - vm_compute. discriminate.
  - vm_compute. discriminate.
  - exists low, high, rest. auto.
Defined.

Section Overpay.





End Overpay.



(** * Who is shown a budget *)

(** X10. A budget is shown to the owner of the trip only.  An answer that
    carries the budget, or that says that none is set up, is sent with
    status 200 to a caller who owns the trip named in the route; any other
    caller gets an error and learns nothing about the budget, not even
    whether there is one. *)
Theorem budget_only_for_owner (db : Db) (req : Request) (response : Response) :
  getBudget db req = Some response ->
  (forall error, body response <> ErrorBody error) ->
  status response = 200%nat /\
  (exists trip,
      In trip (plannedTrips db) /\
      plannedTripId trip = reqTripId req /\
      userId trip = reqUserId req) /\
  (forall budget spent remaining result,
      body response = StatsBody budget spent remaining result ->
      In budget (tripBudgets db) /\ tripId budget = reqTripId req).
Proof.
  unfold getBudget. intros H Hne.
  destruct (findPlannedTrip db (reqTripId req)) as [trip|] eqn:Et.
  2:{ injection H as <-. exfalso. eapply Hne. reflexivity. }
  destruct (String.eqb_spec (userId trip) (reqUserId req)) as [Eu|Eu]; cbn [negb] in H.
  2:{ injection H as <-. exfalso. eapply Hne. reflexivity. }
  unfold findPlannedTrip in Et. apply find_some in Et. destruct Et as [Hin Eid].
  apply String.eqb_eq in Eid.
  assert (Htrip : exists t, In t (plannedTrips db) /\
                            plannedTripId t = reqTripId req /\ userId t = reqUserId req)
    by (exists trip; auto).
  destruct (findBudget db (reqTripId req)) as [budget|] eqn:Eb.
  - destruct (resolveDebts _) as [result|]; [|discriminate].
    injection H as <-. cbn [status body]. split; [reflexivity|]. split; [exact Htrip|].
    intros b s r l E. injection E as <- _ _ _.
    unfold findBudget in Eb. apply find_some in Eb. destruct Eb as [Hb Eid'].
    apply String.eqb_eq in Eid'. auto.
  - injection H as <-. cbn [status body]. split; [reflexivity|]. split; [exact Htrip|].
    intros b s r l E. discriminate.
Qed.

Lemma budget_only_for_owner_witness :
  exists trip,
    In trip (plannedTrips Scenario.db) /\
    plannedTripId trip = "trip-2"%string /\ userId trip = "mallory"%string.
Proof.
  destruct (budget_only_for_owner Scenario.db (mkRequest "mallory" "trip-2" "")
              (mkResponse 200 NotSetupBody)) as [_ [Ht _]].
  - reflexivity.
  - intros error. discriminate.
  - exact Ht.
Defined.

(** * The routes that write *)

Section Sets.

Lemma setAdd_in x s y : In y (setAdd x s) <-> In y s \/ y = x.
Proof.
  unfold setAdd. destruct (existsb (String.eqb x) s) eqn:E.
  - split; [tauto|]. intros [H| ->]; [exact H|].
    apply existsb_exists in E. destruct E as [z [Hz Ez]].
    apply String.eqb_eq in Ez. now subst.
  - rewrite in_app_iff. simpl. intuition.
Qed.

Lemma setAdd_nodup x s : NoDup s -> NoDup (setAdd x s).
Proof.
  unfold setAdd. destruct (existsb (String.eqb x) s) eqn:E; [trivial|]. intros H.
  eapply Permutation_NoDup; [apply Permutation_cons_append|].
  constructor; [|exact H]. intros Hin.
  assert (E' : existsb (String.eqb x) s = true).
  { apply existsb_exists. exists x. split; [exact Hin|apply String.eqb_refl]. }
  congruence.
Qed.

Lemma setAdd_extends x s : exists r, setAdd x s = s ++ r.
Proof.
  unfold setAdd. destruct (existsb _ s); [exists []; now rewrite app_nil_r|now exists [x]].
Qed.

Lemma fold_setAdd l : forall s,
  NoDup s ->
  NoDup (fold_left (fun s x => setAdd x s) l s) /\
  (forall y, In y (fold_left (fun s x => setAdd x s) l s) <-> In y s \/ In y l) /\
  exists r, fold_left (fun s x => setAdd x s) l s = s ++ r.
Proof.
  induction l as [|x l IH]; intros s Hs; cbn [fold_left].
  - split; [exact Hs|]. split; [simpl; tauto|]. exists []. now rewrite app_nil_r.
  - destruct (IH (setAdd x s) (setAdd_nodup x s Hs)) as [Hnd [Hin [r Hr]]].
    split; [exact Hnd|]. split.
    + intros y. rewrite Hin, setAdd_in. simpl. intuition.
    + destruct (setAdd_extends x s) as [r' Hr']. exists (r' ++ r).
      now rewrite Hr, Hr', app_assoc.
Qed.

(** The set built from an array that starts with [x]: [x] comes first, no
    value comes twice, and the values are those of the array. *)
Lemma newSet_cons x l :
  NoDup (newSet (x :: l)) /\
  (forall y, In y (newSet (x :: l)) <-> y = x \/ In y l) /\
  exists r, newSet (x :: l) = x :: r.
Proof.
  unfold newSet. cbn [fold_left]. change (setAdd x []) with [x].
  destruct (fold_setAdd l [x]) as [Hnd [Hin [r Hr]]]; [repeat constructor; tauto|].
  split; [exact Hnd|]. split.
  - intros y. rewrite Hin. simpl. intuition.
  - exists r. exact Hr.
Qed.

Lemma map_snd_combine_seq {A : Type} (l : list A) : forall a,
  map snd (combine (seq a (List.length l)) l) = l.
Proof.
  induction l as [|x l IH]; intros a; cbn [List.length seq combine map snd];
    [reflexivity|]. now rewrite IH.
Qed.

Lemma names_participantRows fresh ns : map name (participantRows fresh ns) = ns.
Proof.
  unfold participantRows. rewrite map_map. cbn [name].
  apply (map_snd_combine_seq ns 0%nat).
Qed.

End Sets.

Section Lookups.

Lemma existsb_find {A : Type} (f : A -> bool) l :
  existsb f l = false <-> find f l = None.
Proof.
  induction l as [|x l IH]; cbn [existsb find]; [tauto|].
  destruct (f x); cbn [orb]; [split; discriminate|exact IH].
Qed.

Lemma find_app_none {A : Type} (f : A -> bool) l l' :
  find f l = None -> find f (l ++ l') = find f l'.
Proof.
  induction l as [|x l IH]; cbn [find app]; [reflexivity|].
  destruct (f x); [discriminate|exact IH].
Qed.

Lemma find_app_some {A : Type} (f : A -> bool) l l' x :
  find f l = Some x -> find f (l ++ l') = Some x.
Proof.
  induction l as [|y l IH]; cbn [find app]; [discriminate|].
  destruct (f y); [trivial|exact IH].
Qed.

Lemma find_map_same {A : Type} (f : A -> bool) (g : A -> A) l :
  (forall x, f (g x) = f x) -> find f (map g l) = option_map g (find f l).
Proof.
  intros H. induction l as [|x l IH]; cbn [find map]; [reflexivity|].
  rewrite H. destruct (f x); [reflexivity|exact IH].
Qed.


(** The figures the owner of a trip is shown when the trip has a budget. *)
Lemma getBudget_owner db req trip budget :
  findPlannedTrip db (reqTripId req) = Some trip ->
  userId trip = reqUserId req ->
  findBudget db (reqTripId req) = Some budget ->
  exists result,
    resolveDebts (computeBalances (participants budget) (expenses budget)) = Some result /\
    getBudget db req
    = Some (mkResponse 200
              (StatsBody budget (totalSpent (expenses budget))
                         (totalBudget budget - totalSpent (expenses budget)) result)).
Proof.
  intros Ht Eu Eb. unfold getBudget. rewrite Ht, Eu, String.eqb_refl, Eb. cbn [negb].
  destruct (resolveDebts_ends (computeBalances (participants budget) (expenses budget)))
    as [result Hr].
  exists result. now rewrite Hr.
Qed.


End Lookups.

(** ** Setting a budget up *)

Section Setup.

Variable fresh : Generated.
Variable db : Db.
Variable req : Request.
Variable body : SetupBody.

Lemma setupBudget_done trip :
  findPlannedTrip db (reqTripId req) = Some trip ->
  userId trip = reqUserId req ->
  findBudget db (reqTripId req) = None ->
  setupBudget fresh db req body
  = (mkDb (plannedTrips db) (tripBudgets db ++ [createdBudget fresh (reqTripId req) body]),
     Answered 200 (mkBudgetRow (newBudgetId fresh) (reqTripId req)
                               (setupTotalBudget body)
                               (currencyOrDefault (setupCurrency body)))).
Proof.
  intros Ht Eu Eb. unfold setupBudget. rewrite Ht, Eu, String.eqb_refl. cbn [negb].
  apply existsb_find in Eb. unfold findBudget in Eb. now rewrite Eb.
Qed.

(** A setup changes the tables in one way only. *)
Lemma setupBudget_cases :
  (fst (setupBudget fresh db req body) = db /\
   exists code error, snd (setupBudget fresh db req body) = Refused code error) \/
  (exists trip,
      findPlannedTrip db (reqTripId req) = Some trip /\
      userId trip = reqUserId req /\
      findBudget db (reqTripId req) = None /\
      fst (setupBudget fresh db req body)
      = mkDb (plannedTrips db)
             (tripBudgets db ++ [createdBudget fresh (reqTripId req) body])).
Proof.
  unfold setupBudget.
  destruct (findPlannedTrip db (reqTripId req)) as [trip|] eqn:Et;
    [|left; split; [reflexivity|do 2 eexists; reflexivity]].
  destruct (String.eqb_spec (userId trip) (reqUserId req)) as [Eu|Eu]; cbn [negb];
    [|left; split; [reflexivity|do 2 eexists; reflexivity]].
  destruct (existsb _ (tripBudgets db)) eqn:Eb;
    [left; split; [reflexivity|do 2 eexists; reflexivity]|].
  right. exists trip. apply existsb_find in Eb. auto.
Qed.

End Setup.

Lemma resolveDebts_zero (balances : Balances) :
  Forall (fun kv => balanceAmount (snd kv) == 0) balances ->
  resolveDebts balances = Some [].
Proof.
  intros H. rewrite resolveDebts_slices. apply resolveLoop_stopped. left.
  unfold debtorsOf. rewrite filter_none; [reflexivity|].
  eapply Forall_impl; [|exact H]. intros kv Hkv. cbv beta in Hkv.
  apply Qltb_ge. unfold eps. lra.
Qed.



(** X12. Setup, then read.  After a setup that succeeded, the owner of the
    trip is shown the budget just created: nothing spent, the whole budget
    remaining, no debt. *)
Theorem setup_then_get
  (fresh : Generated) (db db' : Db) (req : Request) (body : SetupBody) (row : BudgetRow)
  (code : nat) :
  setupBudget fresh db req body = (db', Answered code row) ->
  exists budget remaining,
    getBudget db' req = Some (mkResponse 200 (StatsBody budget 0 remaining [])) /\
    remaining == setupTotalBudget body /\
    budgetId budget = rowId row /\
    tripId budget = reqTripId req /\
    currency budget = rowCurrency row /\
    expenses budget = [].
Proof.
  intros H.
  destruct (setupBudget_cases fresh db req body) as [[_ [c [e Hr]]]|[trip [Ht [Eu [Eb Hd]]]]].
  { rewrite H in Hr. discriminate. }
  pose proof (setupBudget_done fresh db req body trip Ht Eu Eb) as Hs.
  rewrite H in Hs. injection Hs as -> _ ->.
  set (budget := createdBudget fresh (reqTripId req) body).
  assert (Hb : findBudget (mkDb (plannedTrips db) (tripBudgets db ++ [budget]))
                 (reqTripId req) = Some budget).
  { unfold findBudget in *. cbn [tripBudgets]. rewrite find_app_none by exact Eb.
    cbn [find]. unfold budget at 1, createdBudget. cbn [tripId].
    now rewrite String.eqb_refl. }
  destruct (getBudget_owner (mkDb (plannedTrips db) (tripBudgets db ++ [budget]))
              req trip budget Ht Eu Hb) as [result [Hr Hg]].
  assert (Hz : resolveDebts (computeBalances (participants budget) (expenses budget))
               = Some []).
  { apply resolveDebts_zero. unfold budget, createdBudget. cbn [expenses].
    unfold computeBalances. cbn [fold_left]. apply zero_fold_objSet. constructor. }
  rewrite Hz in Hr. injection Hr as <-.
  exists budget, (totalBudget budget - totalSpent (expenses budget)).
  split; [exact Hg|].
  unfold budget, createdBudget.
  cbn [budgetId tripId totalBudget currency expenses rowId rowCurrency].
  repeat split; try reflexivity.
  unfold totalSpent. cbn [fold_left]. ring.
Qed.

Lemma setup_then_get_witness :
  exists budget remaining,
    getBudget (fst (setupBudget (Calls.generated "budget-2" "e")
                                Scenario.db (mkRequest "mallory" "trip-2" "")
                                (mkSetupBody 900 None ["Ann"; "Bob"]%string)))
              (mkRequest "mallory" "trip-2" "")
    = Some (mkResponse 200 (StatsBody budget 0 remaining [])) /\
    remaining == 900.
Proof.
  destruct (setup_then_get
              (Calls.generated "budget-2" "e") Scenario.db
              (fst (setupBudget (Calls.generated "budget-2" "e")
                                Scenario.db (mkRequest "mallory" "trip-2" "")
                                (mkSetupBody 900 None ["Ann"; "Bob"]%string)))
              (mkRequest "mallory" "trip-2" "")
              (mkSetupBody 900 None ["Ann"; "Bob"]%string)
              (mkBudgetRow "budget-2" "trip-2" 900 "USD") 200%nat eq_refl)
    as [budget [remaining [Hg [Hr _]]]].
  exists budget, remaining. split; [exact Hg|exact Hr].
Defined.

(** ** What the tables keep *)

Section Soundness.

Variable trips : list PlannedTrip.

Lemma sound_initial : tablesSound trips (mkDb trips []).
Proof. repeat split; constructor. Qed.

Lemma findParticipant_more db budget pid :
  findParticipant db pid <> None ->
  findParticipant (mkDb (plannedTrips db) (tripBudgets db ++ [budget])) pid <> None.
Proof.
  unfold findParticipant. cbn [tripBudgets]. rewrite flat_map_app.
  destruct (find _ (flat_map participants (tripBudgets db))) as [p|] eqn:E; [|congruence].
  intros _. erewrite find_app_some; [discriminate|exact E].
Qed.

Lemma find_none_all {A : Type} (f : A -> bool) l x :
  find f l = None -> In x l -> f x = false.
Proof.
  intros H Hin. apply existsb_find in H.
  destruct (f x) eqn:E; [|reflexivity].
  assert (existsb f l = true) by (apply existsb_exists; eauto). congruence.
Qed.

Lemma sound_setup fresh db req body :
  tablesSound trips db -> tablesSound trips (fst (setupBudget fresh db req body)).
Proof.
  intros [Ht [Hnd Hall]].
  destruct (setupBudget_cases fresh db req body) as [[-> _]|[trip [Et [Eu [Eb ->]]]]];
    [repeat split; assumption|].
  split; [exact Ht|]. cbn [tripBudgets]. split.
  - rewrite map_app. cbn [map]. unfold createdBudget at 1. cbn [tripId].
    eapply Permutation_NoDup; [apply Permutation_cons_append|].
    constructor; [|exact Hnd]. intros Hin. apply in_map_iff in Hin.
    destruct Hin as [b [Eid Hb]]. unfold findBudget in Eb.
    pose proof (find_none_all _ _ b Eb Hb) as Hf. cbv beta in Hf.
    rewrite Eid, String.eqb_refl in Hf. discriminate.
  - apply Forall_app. split.
    + eapply Forall_impl; [|exact Hall]. intros b [H1 [H2 [H3 H4]]].
      repeat split; try assumption.
      eapply Forall_impl; [|exact H4]. intros e. apply findParticipant_more.
    + constructor; [|constructor].
      destruct (newSet_cons "Me"%string (setupParticipants body)) as [Hs [_ [r Hr]]].
      unfold budgetSound, createdBudget. cbn [tripId participants expenses].
      rewrite names_participantRows. repeat split.
      * exists trip. unfold findPlannedTrip in Et. apply find_some in Et.
        destruct Et as [Hin Eid]. apply String.eqb_eq in Eid. rewrite <- Ht. auto.
      * exact Hs.
      * now rewrite Hr.
      * constructor.
Qed.

(** A change of the budgets that keeps their trips and participants, and
    the payers of their expenses among the participants. *)
Lemma sound_map db (g : TripBudget -> TripBudget) :
  (forall b, tripId (g b) = tripId b) ->
  (forall b, participants (g b) = participants b) ->
  (forall b, In b (tripBudgets db) ->
             forall e, In e (expenses (g b)) ->
                       In e (expenses b) \/ findParticipant db (paidById e) <> None) ->
  tablesSound trips db ->
  tablesSound trips (mkDb (plannedTrips db) (map g (tripBudgets db))).
Proof.
  intros Hg1 Hg2 Hg3 [Ht [Hnd Hall]].
  assert (Ep : forall pid,
             findParticipant (mkDb (plannedTrips db) (map g (tripBudgets db))) pid
             = findParticipant db pid).
  { intros pid. unfold findParticipant. cbn [tripBudgets]. f_equal.
    generalize (tripBudgets db) as l.
    induction l as [|b l IH]; cbn [map flat_map]; [reflexivity|].
    now rewrite Hg2, IH. }
  split; [exact Ht|]. cbn [tripBudgets]. split.
  - rewrite map_map. erewrite map_ext; [exact Hnd|]. intros b. apply Hg1.
  - apply Forall_forall. intros b' Hb'. apply in_map_iff in Hb'.
    destruct Hb' as [b [<- Hb]].
    rewrite Forall_forall in Hall. destruct (Hall b Hb) as [H1 [H2 [H3 H4]]].
    unfold budgetSound. rewrite Hg1, Hg2. repeat split; try assumption.
    apply Forall_forall. intros e He. rewrite Ep.
    destruct (Hg3 b Hb e He) as [Hin|Hf]; [|exact Hf].
    rewrite Forall_forall in H4. now apply H4.
Qed.

Lemma sound_add fresh db req body :
  tablesSound trips db -> tablesSound trips (fst (addExpense fresh db req body)).
Proof.
  intros H. unfold addExpense.
  destruct (findBudget db (reqTripId req)) as [budget|]; [|exact H].
  destruct (findParticipant db (bodyPaidById body)) as [paidBy|] eqn:Ep; [|exact H].
  cbn [fst]. apply sound_map; [| | |exact H].
  - intros b. unfold withExpense. now destruct (String.eqb _ _).
  - intros b. unfold withExpense. now destruct (String.eqb _ _).
  - intros b _ e. unfold withExpense. destruct (String.eqb _ _); [|tauto].
    cbn [expenses]. intros [<-|Hin]; [|tauto]. right. cbn [paidById]. congruence.
Qed.

Lemma sound_delete db req :
  tablesSound trips db -> tablesSound trips (fst (deleteExpense db req)).
Proof.
  intros H. unfold deleteExpense, expenseDelete.
  destruct (existsb _ (tripBudgets db)); [|exact H].
  cbn [fst]. apply sound_map; [| | |exact H]; try reflexivity.
  intros b _ e. unfold withoutExpense. cbn [expenses]. intros He.
  apply filter_In in He. tauto.
Qed.

Lemma sound_perform db c : tablesSound trips db -> tablesSound trips (perform db c).
Proof.
  destruct c; cbn [perform]; [apply sound_setup|apply sound_add|apply sound_delete].
Qed.

Lemma sound_after calls : tablesSound trips (tablesAfter trips calls).
Proof.
  unfold tablesAfter. generalize sound_initial. generalize (mkDb trips []).
  induction calls as [|c calls IH]; intros db H; cbn [fold_left]; [exact H|].
  apply IH. now apply sound_perform.
Qed.

End Soundness.

Section Transfers.


End Transfers.

(** X13. Whatever calls of the three writing routes are made, by whichever
    callers and in whichever order, on trips that start without a budget:
    the trips stay as they were, no trip gets two budgets, every budget
    belongs to one of the trips, the names of its participants are
    pairwise different with ["Me"] first, and every expense is paid by a
    row of the participants table. *)
Theorem tables_stay_sound (trips : list PlannedTrip) (calls : list Call) :
  tablesSound trips (tablesAfter trips calls).
Proof. apply sound_after. Qed.


(** ** Adding and deleting expenses *)

Section Expenses.

Lemma withExpense_own e b :
  withExpense (budgetId b) e b
  = mkBudget (budgetId b) (tripId b) (totalBudget b) (currency b) (participants b)
             (e :: expenses b).
Proof. unfold withExpense. now rewrite String.eqb_refl. Qed.

Lemma tripId_withExpense bid e b : tripId (withExpense bid e b) = tripId b.
Proof. unfold withExpense. now destruct (String.eqb _ _). Qed.

Lemma addExpense_done fresh db req body budget paidBy :
  findBudget db (reqTripId req) = Some budget ->
  findParticipant db (bodyPaidById body) = Some paidBy ->
  addExpense fresh db req body
  = (mkDb (plannedTrips db)
          (map (withExpense (budgetId budget)
                  (mkExpense (newExpenseId fresh) (bodyAmount body) (bodyCategory body)
                             (bodyDescription body) (bodyPaidById body)
                             (bodySplitWithIds body)))
               (tripBudgets db)),
     Answered 200 (mkExpense (newExpenseId fresh) (bodyAmount body) (bodyCategory body)
                             (bodyDescription body) (bodyPaidById body)
                             (bodySplitWithIds body), paidBy)).
Proof. intros Hb Hp. unfold addExpense. now rewrite Hb, Hp. Qed.

(** An answer other than a refusal says that the expense was stored. *)
Lemma addExpense_answered fresh db req body db' code payload :
  addExpense fresh db req body = (db', Answered code payload) ->
  exists budget paidBy,
    findBudget db (reqTripId req) = Some budget /\
    findParticipant db (bodyPaidById body) = Some paidBy.
Proof.
  unfold addExpense.
  destruct (findBudget db (reqTripId req)) as [budget|]; [|discriminate].
  destruct (findParticipant db (bodyPaidById body)) as [paidBy|]; [|discriminate].
  eauto.
Qed.

(** The budget of a trip after a change of the budgets that keeps their
    trips. *)
Lemma findBudget_map db g tid :
  (forall b, tripId (g b) = tripId b) ->
  findBudget (mkDb (plannedTrips db) (map g (tripBudgets db))) tid
  = option_map g (findBudget db tid).
Proof.
  intros Hg. unfold findBudget. cbn [tripBudgets]. apply find_map_same.
  intros b. now rewrite Hg.
Qed.

Lemma withoutExpense_same eid b :
  (forall e, In e (expenses b) -> expenseId e <> eid) -> withoutExpense eid b = b.
Proof.
  intros H. unfold withoutExpense. destruct b as [bid tid total cur ps es].
  cbn [budgetId tripId totalBudget currency participants expenses] in *. f_equal.
  induction es as [|e es IH]; cbn [filter]; [reflexivity|].
  destruct (String.eqb_spec (expenseId e) eid) as [E|E]; cbn [negb].
  - exfalso. apply (H e); [now left|exact E].
  - f_equal. apply IH. intros e' He'. apply H. now right.
Qed.

Lemma hasExpense_none eid b :
  (forall e, In e (expenses b) -> expenseId e <> eid) -> hasExpense eid b = false.
Proof.
  intros H. unfold hasExpense. destruct (existsb _ _) eqn:E; [|reflexivity].
  apply existsb_exists in E. destruct E as [e [He Ee]]. apply String.eqb_eq in Ee.
  exfalso. now apply (H e).
Qed.



End Expenses.





(** X17. Add, then delete.  When the key generated for a new expense is the
    key of no stored expense, deleting the expense just added gives the
    tables back as they were before it was added. *)
Theorem add_then_delete
  (fresh : Generated) (db db' : Db) (req req' : Request) (body : ExpenseBody)
  (code : nat) (payload : Expense * TripParticipant) :
  (forall b e, In b (tripBudgets db) -> In e (expenses b) ->
               expenseId e <> newExpenseId fresh) ->
  addExpense fresh db req body = (db', Answered code payload) ->
  reqExpenseId req' = expenseId (fst payload) ->
  deleteExpense db' req' = (db, mkResponse 200 SuccessBody).
Proof.
  intros Hfresh Ha Eid.
  destruct (addExpense_answered _ _ _ _ _ _ _ Ha) as [budget [paidBy [Hb Hp]]].
  rewrite (addExpense_done fresh db req body budget paidBy Hb Hp) in Ha.
  injection Ha as <- _ <-. cbn [fst expenseId] in Eid.
  set (expense := mkExpense _ _ _ _ _ _).
  unfold findBudget in Hb. apply find_some in Hb. destruct Hb as [Hin _].
  unfold deleteExpense. rewrite Eid.
  erewrite expenseDelete_found with (b := withExpense (budgetId budget) expense budget)
                                    (e := expense).
  - cbn [plannedTrips tripBudgets]. f_equal. destruct db as [ts bs].
    cbn [plannedTrips tripBudgets] in *. f_equal.
    rewrite map_map. rewrite <- (map_id bs) at 2. apply map_ext_in.
    intros b Hb. unfold withExpense.
    destruct (String.eqb (budgetId b) (budgetId budget)).
    + unfold withoutExpense. cbn [budgetId tripId totalBudget currency participants
                                  expenses filter].
      unfold expense at 1. cbn [expenseId]. rewrite String.eqb_refl. cbn [negb].
      change (withoutExpense (newExpenseId fresh) b = b).
      apply withoutExpense_same. intros e He. now apply (Hfresh b).
    + apply withoutExpense_same. intros e He. now apply (Hfresh b).
  - cbn [tripBudgets]. apply in_map. exact Hin.
  - rewrite withExpense_own. cbn [expenses]. now left.
  - reflexivity.
Qed.

Lemma add_then_delete_witness :
  deleteExpense (fst (addExpense (Calls.generated "b" "e-new")
                                 Scenario.db (mkRequest "mallory" "trip-1" "")
                                 (mkExpenseBody 30 "food" "lunch" "id-a" ["id-b"]%string)))
                (mkRequest "bob" "trip-9" "e-new")
  = (Scenario.db, mkResponse 200 SuccessBody).
Proof.
  apply (add_then_delete (Calls.generated "b" "e-new")
           Scenario.db _ (mkRequest "mallory" "trip-1" "") (mkRequest "bob" "trip-9" "e-new")
           (mkExpenseBody 30 "food" "lunch" "id-a" ["id-b"]%string) 200%nat
           (mkExpense "e-new" 30 "food" "lunch" "id-a" ["id-b"]%string, Scenario.A)).
  - intros b e [<-|[]] He. cbn in He.
    repeat (destruct He as [<-|He]; [discriminate|]). contradiction.
  - reflexivity.
  - reflexivity.
Defined.

Section Deleting.

(** After the call, whatever its outcome, no stored expense has the key. *)
Lemma deleteExpense_gone db req b e :
  In b (tripBudgets (fst (deleteExpense db req))) -> In e (expenses b) ->
  expenseId e <> reqExpenseId req.
Proof.
  unfold deleteExpense, expenseDelete.
  destruct (existsb _ (tripBudgets db)) eqn:E; cbn [fst tripBudgets].
  - intros Hb He. apply in_map_iff in Hb. destruct Hb as [b0 [<- _]].
    now apply withoutExpense_gone in He.
  - intros Hb He Eid.
    assert (existsb (hasExpense (reqExpenseId req)) (tripBudgets db) = true); [|congruence].
    apply existsb_exists. exists b. split; [exact Hb|].
    unfold hasExpense. apply existsb_exists. exists e. split; [exact He|].
    now apply String.eqb_eq.
Qed.

Lemma expenseDelete_missing db eid :
  (forall b e, In b (tripBudgets db) -> In e (expenses b) -> expenseId e <> eid) ->
  expenseDelete db eid = None.
Proof.
  intros H. unfold expenseDelete.
  destruct (existsb _ (tripBudgets db)) eqn:E; [|reflexivity].
  apply existsb_exists in E. destruct E as [b [Hb Hh]].
  rewrite hasExpense_none in Hh; [discriminate|]. intros e. now apply H.
Qed.

End Deleting.



(** X19. A deleted expense stays deleted.  After a call of the delete
    route, whatever its outcome, no stored expense has the key of the
    route, and a second call for the same key, by any caller, is answered
    with status 500 and changes nothing. *)
Theorem delete_is_final (db : Db) (req req' : Request) :
  reqExpenseId req' = reqExpenseId req ->
  (forall b e, In b (tripBudgets (fst (deleteExpense db req))) -> In e (expenses b) ->
               expenseId e <> reqExpenseId req) /\
  deleteExpense (fst (deleteExpense db req)) req'
  = (fst (deleteExpense db req), mkResponse 500 (ErrorBody "Failed to delete expense")).
Proof.
  intros Eid. split; [apply deleteExpense_gone|].
  unfold deleteExpense at 1. rewrite Eid.
  rewrite expenseDelete_missing; [reflexivity|]. apply deleteExpense_gone.
Qed.

Lemma delete_is_final_witness :
  deleteExpense (fst (deleteExpense Scenario.db (mkRequest "mallory" "trip-2" "exp-7")))
                (mkRequest "alice" "trip-1" "exp-7")
  = (fst (deleteExpense Scenario.db (mkRequest "mallory" "trip-2" "exp-7")),
     mkResponse 500 (ErrorBody "Failed to delete expense")).
Proof.
  exact (proj2 (delete_is_final Scenario.db (mkRequest "mallory" "trip-2" "exp-7")
                  (mkRequest "alice" "trip-1" "exp-7") eq_refl)).
Defined.

(** ** A budget is set up once *)

Section Once.

Lemma sameSetup_refl b : sameSetup b b.
Proof. repeat split. Qed.

Lemma sameSetup_trans b1 b2 b3 : sameSetup b1 b2 -> sameSetup b2 b3 -> sameSetup b1 b3.
Proof.
  unfold sameSetup. intros [H1 [H2 [H3 [H4 H5]]]] [G1 [G2 [G3 [G4 G5]]]].
  repeat split; congruence.
Qed.

Lemma sameSetup_withExpense bid e b : sameSetup b (withExpense bid e b).
Proof. unfold withExpense. destruct (String.eqb _ _); repeat split. Qed.

Lemma sameSetup_withoutExpense eid b : sameSetup b (withoutExpense eid b).
Proof. repeat split. Qed.

(** No call removes the budget of a trip, or changes anything of it but
    its expenses. *)
Lemma perform_keeps_budget db c tid b :
  findBudget db tid = Some b ->
  exists b', findBudget (perform db c) tid = Some b' /\ sameSetup b b'.
Proof.
  intros Hb. destruct c as [fresh req body|fresh req body|req]; cbn [perform].
  - destruct (setupBudget_cases fresh db req body) as [[-> _]|[_ [_ [_ [_ ->]]]]].
    + exists b. split; [exact Hb|apply sameSetup_refl].
    + exists b. split; [|apply sameSetup_refl].
      unfold findBudget in *. cbn [tripBudgets]. now apply find_app_some.
  - unfold addExpense.
    destruct (findBudget db (reqTripId req)) as [budget|];
      [|exists b; split; [exact Hb|apply sameSetup_refl]].
    destruct (findParticipant db (bodyPaidById body)) as [paidBy|];
      [|exists b; split; [exact Hb|apply sameSetup_refl]].
    cbn [fst]. rewrite findBudget_map by apply tripId_withExpense. rewrite Hb.
    eexists. split; [reflexivity|apply sameSetup_withExpense].
  - unfold deleteExpense, expenseDelete.
    destruct (existsb _ (tripBudgets db));
      [|exists b; split; [exact Hb|apply sameSetup_refl]].
    cbn [fst]. rewrite findBudget_map by reflexivity. rewrite Hb.
    eexists. split; [reflexivity|apply sameSetup_withoutExpense].
Qed.

Lemma calls_keep_budget calls : forall db tid b,
  findBudget db tid = Some b ->
  exists b', findBudget (fold_left perform calls db) tid = Some b' /\ sameSetup b b'.
Proof.
  induction calls as [|c calls IH]; intros db tid b Hb; cbn [fold_left].
  - exists b. split; [exact Hb|apply sameSetup_refl].
  - destruct (perform_keeps_budget db c tid b Hb) as [b1 [H1 S1]].
    destruct (IH (perform db c) tid b1 H1) as [b2 [H2 S2]].
    exists b2. split; [exact H2|exact (sameSetup_trans _ _ _ S1 S2)].
Qed.

Lemma setupBudget_again fresh db req body b :
  findBudget db (reqTripId req) = Some b ->
  exists code error, setupBudget fresh db req body = (db, Refused code error).
Proof.
  intros Hb. unfold setupBudget.
  destruct (findPlannedTrip db (reqTripId req)) as [trip|]; [|eauto].
  destruct (negb _); [eauto|].
  assert (E : existsb (fun b0 => String.eqb (tripId b0) (reqTripId req)) (tripBudgets db)
              = true).
  { destruct (existsb _ _) eqn:E; [reflexivity|].
    apply existsb_find in E. unfold findBudget in Hb. congruence. }
  rewrite E. eauto.
Qed.

End Once.

(** X20. Only the owner of a trip sets its budget up.  When no trip with
    the id of the route is owned by the caller, the setup is answered with
    status 403 and the tables stay as they were. *)
Theorem setup_only_by_owner
  (fresh : Generated) (db : Db) (req : Request) (body : SetupBody) :
  (forall trip, In trip (plannedTrips db) -> plannedTripId trip = reqTripId req ->
                userId trip <> reqUserId req) ->
  setupBudget fresh db req body = (db, Refused 403 "Not authorized").
Proof.
  intros H. unfold setupBudget.
  destruct (findPlannedTrip db (reqTripId req)) as [trip|] eqn:Et; [|reflexivity].
  unfold findPlannedTrip in Et. apply find_some in Et. destruct Et as [Hin Eid].
  apply String.eqb_eq in Eid.
  destruct (String.eqb_spec (userId trip) (reqUserId req)) as [Eu|Eu]; [|reflexivity].
  exfalso. now apply (H trip).
Qed.

Lemma setup_only_by_owner_witness :
  setupBudget (Calls.generated "budget-2" "e")
              Scenario.db (mkRequest "alice" "trip-2" "") (mkSetupBody 900 None [])
  = (Scenario.db, Refused 403 "Not authorized").
Proof.
  apply (setup_only_by_owner (Calls.generated "budget-2" "e")
           Scenario.db (mkRequest "alice" "trip-2" "") (mkSetupBody 900 None [])).
  intros trip [<-|[<-|[]]]; cbn; intros E; discriminate.
Defined.

(** X21. A budget is set up once.  Once a trip has a budget, whatever calls
    of the writing routes follow, the trip still has it, with the same id,
    total, currency and participants, its expenses alone having changed;
    and any further setup for the trip, by whichever caller, is refused and
    changes nothing. *)
Theorem budget_is_set_up_once
  (db : Db) (tid : string) (budget : TripBudget) (calls : list Call)
  (fresh : Generated) (req : Request) (body : SetupBody) :
  findBudget db tid = Some budget ->
  reqTripId req = tid ->
  (exists budget',
      findBudget (fold_left perform calls db) tid = Some budget' /\
      sameSetup budget budget') /\
  (exists code error,
      setupBudget fresh (fold_left perform calls db) req body
      = (fold_left perform calls db, Refused code error)).
Proof.
  intros Hb <-.
  destruct (calls_keep_budget calls db (reqTripId req) budget Hb) as [b' [Hb' Hs]].
  split; [exists b'; auto|].
  exact (setupBudget_again fresh _ req body b' Hb').
Qed.

Lemma budget_is_set_up_once_witness :
  exists code error,
    setupBudget (Calls.generated "budget-3" "e")
                (fold_left perform
                           [CallDeleteExpense (mkRequest "mallory" "trip-2" "exp-7")]
                           Scenario.db)
                (mkRequest "alice" "trip-1" "") (mkSetupBody 900 None [])
    = (fold_left perform [CallDeleteExpense (mkRequest "mallory" "trip-2" "exp-7")]
                 Scenario.db,
       Refused code error).
Proof.
  exact (proj2 (budget_is_set_up_once Scenario.db "trip-1" Scenario.overspent
                  [CallDeleteExpense (mkRequest "mallory" "trip-2" "exp-7")]
                  (Calls.generated "budget-3" "e")
                  (mkRequest "alice" "trip-1" "") (mkSetupBody 900 None [])
                  eq_refl eq_refl)).
Defined.

(** * Packing templates *)

Section Indexed.

Context {A B : Type}.

Lemma length_mapIndexed (f : A -> nat -> B) l :
  List.length (mapIndexed f l) = List.length l.
Proof.
  unfold mapIndexed. rewrite length_map, length_combine, length_seq. lia.
Qed.



End Indexed.

Section Numbering.

Lemma indexed_ids {A : Type} (f : A -> nat -> ChecklistItem) l :
  (forall x k, checkId (f x k) = (k + 1)%nat) ->
  forall a,
    map checkId (map (fun p => f (snd p) (fst p)) (combine (seq a (List.length l)) l))
    = seq (a + 1) (List.length l).
Proof.
  intros Hf. induction l as [|x l IH]; intros a; [reflexivity|].
  cbn [List.length seq combine map fst snd]. rewrite Hf. f_equal.
  rewrite (IH (S a)). reflexivity.
Qed.

Lemma numbered_mapIndexed {A : Type} (f : A -> nat -> ChecklistItem) l :
  (forall x k, checkId (f x k) = (k + 1)%nat) ->
  (forall x k, checkCompleted (f x k) = false) ->
  numbered (mapIndexed f l).
Proof.
  intros Hid Hc. unfold numbered. rewrite length_mapIndexed. split.
  - unfold mapIndexed. now rewrite indexed_ids.
  - unfold mapIndexed. apply Forall_map. apply Forall_forall. intros p _. apply Hc.
Qed.

(** Numbering again and resetting changes nothing in items that are
    numbered and not completed. *)
Lemma renumbered items : forall a,
  map checkId items = seq (a + 1) (List.length items) ->
  Forall (fun item => checkCompleted item = false) items ->
  map (fun p => checklistItem (snd p) (fst p)) (combine (seq a (List.length items)) items)
  = items.
Proof.
  induction items as [|x items IH]; intros a Hid Hc; [reflexivity|].
  cbn [List.length seq combine map fst snd] in *.
  injection Hid as Hx Hid. inversion Hc as [|? ? Hcx Hc']; subst. f_equal.
  - destruct x as [i t c d]. unfold checklistItem.
    cbn [checkId checkTask checkCategory checkCompleted] in *. now subst.
  - apply IH; [exact Hid|exact Hc'].
Qed.

Lemma numbered_fixed items : numbered items -> mapIndexed checklistItem items = items.
Proof. intros [Hid Hc]. unfold mapIndexed. now apply renumbered. Qed.

End Numbering.

Section Checklists.

Lemma getChecklist_set tid items l : getChecklist tid (setChecklist tid items l) = Some items.
Proof.
  induction l as [|[k v] l IH]; cbn [setChecklist getChecklist].
  - now rewrite String.eqb_refl.
  - destruct (String.eqb_spec k tid) as [E|E]; cbn [getChecklist].
    + now rewrite E, String.eqb_refl.
    + destruct (String.eqb_spec k tid); [contradiction|exact IH].
Qed.

Lemma getChecklist_other tid tid' items l :
  tid' <> tid -> getChecklist tid' (setChecklist tid items l) = getChecklist tid' l.
Proof.
  intros Hne. induction l as [|[k v] l IH]; cbn [setChecklist getChecklist].
  - destruct (String.eqb_spec tid tid'); [congruence|reflexivity].
  - destruct (String.eqb_spec k tid) as [E|E]; cbn [getChecklist].
    + destruct (String.eqb_spec k tid'); [congruence|reflexivity].
    + now rewrite IH.
Qed.

Lemma saveTemplate_answered newId db req body db' code view :
  saveTemplate newId db req body = (db', Answered code view) ->
  exists name items,
    sentName body = Some name /\ name <> ""%string /\ sentItems body = Some items /\
    db' = mkPackingDb (packingTrips db)
            (mkTemplate newId (packUserId req) name (mapIndexed templateItem items)
               :: packingTemplates db)
            (checklists db) /\
    code = 201%nat /\
    view = viewOf (mkTemplate newId (packUserId req) name (mapIndexed templateItem items)).
Proof.
  unfold saveTemplate.
  destruct (sentName body) as [name|]; [|discriminate].
  destruct (sentItems body) as [items|]; [|discriminate].
  destruct (String.eqb_spec name "") as [E|E]; [discriminate|].
  intros H. injection H as <- <- <-. exists name, items. auto 10.
Qed.

(** Every stored template is numbered, whatever calls were made. *)
Lemma templates_numbered trips lists calls :
  Forall (fun t => numbered (templateItems t))
         (packingTemplates (packingAfter trips lists calls)).
Proof.
  unfold packingAfter.
  assert (H0 : Forall (fun t => numbered (templateItems t))
                 (packingTemplates (mkPackingDb trips [] lists))) by constructor.
  revert H0. generalize (mkPackingDb trips [] lists).
  induction calls as [|c calls IH]; intros db H; cbn [fold_left]; [exact H|].
  apply IH. destruct c as [newId req body|req|req]; cbn [performPacking].
  - unfold saveTemplate.
    destruct (sentName body) as [name|]; [|exact H].
    destruct (sentItems body) as [items|]; [|exact H].
    destruct (String.eqb name ""); [exact H|].
    cbn [fst packingTemplates]. constructor; [|exact H].
    cbn [templateItems]. now apply numbered_mapIndexed.
  - unfold deleteTemplate. destruct (findTemplate _ _ _); [|exact H].
    cbn [fst packingTemplates]. apply Forall_forall. intros t Ht.
    apply filter_In in Ht. rewrite Forall_forall in H. apply H. tauto.
  - unfold applyTemplate. destruct (findTemplate _ _ _); [|exact H].
    destruct (findOwnTrip _ _ _); exact H.
Qed.

End Checklists.



(** X23. Save, then list.  After a template is saved, its owner is listed
    it first, followed by the templates listed before; what any other user
    is listed stays the same. *)
Theorem save_then_list
  (newId : string) (db db' : PackingDb) (req : PackingRequest) (body : TemplateBody)
  (code : nat) (view : TemplateView) :
  saveTemplate newId db req body = (db', Answered code view) ->
  getTemplates db' req = view :: getTemplates db req /\
  forall req', packUserId req' <> packUserId req ->
               getTemplates db' req' = getTemplates db req'.
Proof.
  intros H. apply saveTemplate_answered in H.
  destruct H as [name [items [_ [_ [_ [-> [_ ->]]]]]]].
  unfold getTemplates. cbn [packingTemplates filter templateUserId]. split.
  - now rewrite String.eqb_refl.
  - intros req' Hne. destruct (String.eqb_spec (packUserId req) (packUserId req'));
      [congruence|reflexivity].
Qed.

Lemma save_then_list_witness :
  getTemplates (fst (saveTemplate "t-1" (mkPackingDb [] [] [])
                                  (mkPackingRequest "alice" "" "")
                                  (mkTemplateBody (Some "Beach"%string) (Some []))))
               (mkPackingRequest "alice" "" "")
  = [mkTemplateView "t-1" "Beach" []].
Proof.
  exact (proj1 (save_then_list "t-1" (mkPackingDb [] [] []) _
                  (mkPackingRequest "alice" "" "")
                  (mkTemplateBody (Some "Beach"%string) (Some []))
                  201%nat (mkTemplateView "t-1" "Beach" []) eq_refl)).
Defined.

(** X24. Templates are private.  A user is listed templates of their own
    only; and when no template with the id of the route is owned by the
    caller, deleting it and applying it are both answered with status 404
    and change nothing. *)
Theorem templates_are_private (db : PackingDb) (req : PackingRequest) :
  (forall view,
      In view (getTemplates db req) ->
      exists t, In t (packingTemplates db) /\ viewOf t = view /\
                templateUserId t = packUserId req) /\
  ((forall t, In t (packingTemplates db) -> templateId t = packTemplateId req ->
              templateUserId t <> packUserId req) ->
   deleteTemplate db req = (db, Refused 404 "Template not found") /\
   applyTemplate db req = (db, Refused 404 "Template not found")).
Proof.
  split.
  - intros view Hv. unfold getTemplates in Hv. apply in_map_iff in Hv.
    destruct Hv as [t [Ev Ht]]. apply filter_In in Ht. destruct Ht as [Hin Eu].
    apply String.eqb_eq in Eu. eauto.
  - intros H.
    assert (E : findTemplate db (packTemplateId req) (packUserId req) = None).
    { unfold findTemplate. destruct (find _ _) as [t|] eqn:Ef; [|reflexivity].
      apply find_some in Ef. destruct Ef as [Hin Ef].
      apply andb_true_iff in Ef. destruct Ef as [E1 E2].
      apply String.eqb_eq in E1. apply String.eqb_eq in E2.
      exfalso. now apply (H t). }
    unfold deleteTemplate, applyTemplate. now rewrite E.
Qed.

Lemma templates_are_private_witness :
  deleteTemplate (mkPackingDb [] [mkTemplate "t-1" "alice" "Beach" []] [])
                 (mkPackingRequest "mallory" "t-1" "")
  = (mkPackingDb [] [mkTemplate "t-1" "alice" "Beach" []] [],
     Refused 404 "Template not found").
Proof.
  apply (proj2 (templates_are_private
                  (mkPackingDb [] [mkTemplate "t-1" "alice" "Beach" []] [])
                  (mkPackingRequest "mallory" "t-1" ""))).
  intros t [<-|[]] _. discriminate.
Defined.

(** X25. Applying a template copies its items.  In tables produced by calls
    of the packing routes, applying a template of the caller to a trip of
    the caller is answered with the items of the template as they are
    stored, and these are the checklist of the trip afterwards: the
    numbering and the reset of the handler change nothing, because every
    stored template is numbered from 1 and not completed. *)
Theorem apply_copies_template
  (trips : list PlannedTrip) (lists : list (string * list ChecklistItem))
  (calls : list PackingCall) (req : PackingRequest)
  (template : PackingTemplate) (trip : PlannedTrip) :
  findTemplate (packingAfter trips lists calls) (packTemplateId req) (packUserId req)
  = Some template ->
  findOwnTrip (packingAfter trips lists calls) (packTripId req) (packUserId req)
  = Some trip ->
  snd (applyTemplate (packingAfter trips lists calls) req)
  = Answered 200 (templateItems template) /\
  getChecklist (packTripId req)
               (checklists (fst (applyTemplate (packingAfter trips lists calls) req)))
  = Some (templateItems template).
Proof.
  intros Ht Hp. unfold applyTemplate. rewrite Ht, Hp. cbn [fst snd checklists].
  pose proof (templates_numbered trips lists calls) as Hall.
  unfold findTemplate in Ht. apply find_some in Ht. destruct Ht as [Hin _].
  rewrite Forall_forall in Hall. rewrite (numbered_fixed _ (Hall template Hin)).
  split; [reflexivity|apply getChecklist_set].
Qed.

Lemma apply_copies_template_witness :
  snd (applyTemplate
         (packingAfter [mkTrip "trip-1" "alice"] []
            [CallSave "t-1" (mkPackingRequest "alice" "" "")
               (mkTemplateBody (Some "Beach"%string)
                  (Some [mkSentItem (Some 7%nat) (Some "Towel"%string) None (Some true)]))])
         (mkPackingRequest "alice" "t-1" "trip-1"))
  = Answered 200 [mkChecklistItem 1 (Some "Towel"%string) None false].
Proof.
  exact (proj1 (apply_copies_template [mkTrip "trip-1" "alice"] []
                  [CallSave "t-1" (mkPackingRequest "alice" "" "")
                     (mkTemplateBody (Some "Beach"%string)
                        (Some [mkSentItem (Some 7%nat) (Some "Towel"%string) None
                                          (Some true)]))]
                  (mkPackingRequest "alice" "t-1" "trip-1")
                  (mkTemplate "t-1" "alice" "Beach"
                     [mkChecklistItem 1 (Some "Towel"%string) None false])
                  (mkTrip "trip-1" "alice") eq_refl eq_refl)).
Defined.

(** X26. Applying a template changes one checklist at most, and only for
    the owner.  The trips and the templates stay as they were; a checklist
    that differs after the call is that of the trip of the route, which
    the caller owns, as they own the template. *)
Theorem apply_changes_own_trip (db : PackingDb) (req : PackingRequest) :
  packingTrips (fst (applyTemplate db req)) = packingTrips db /\
  packingTemplates (fst (applyTemplate db req)) = packingTemplates db /\
  forall tid,
    getChecklist tid (checklists (fst (applyTemplate db req)))
    <> getChecklist tid (checklists db) ->
    tid = packTripId req /\
    (exists trip, In trip (packingTrips db) /\ plannedTripId trip = tid /\
                  userId trip = packUserId req) /\
    (exists t, In t (packingTemplates db) /\ templateId t = packTemplateId req /\
               templateUserId t = packUserId req).
Proof.
  unfold applyTemplate.
  destruct (findTemplate db _ _) as [t|] eqn:Et;
    [|cbn [fst]; repeat split; try reflexivity; contradiction].
  destruct (findOwnTrip db _ _) as [trip|] eqn:Ep;
    [|cbn [fst]; repeat split; try reflexivity; contradiction].
  cbn [fst packingTrips packingTemplates checklists].
  split; [reflexivity|]. split; [reflexivity|]. intros tid Hne.
  destruct (String.eqb_spec tid (packTripId req)) as [->|Hd].
  2:{ exfalso. apply Hne. now apply getChecklist_other. }
  split; [reflexivity|].
  unfold findOwnTrip in Ep. apply find_some in Ep. destruct Ep as [Hin Ep].
  apply andb_true_iff in Ep. destruct Ep as [E1 E2].
  apply String.eqb_eq in E1. apply String.eqb_eq in E2.
  unfold findTemplate in Et. apply find_some in Et. destruct Et as [Hin' Et].
  apply andb_true_iff in Et. destruct Et as [E3 E4].
  apply String.eqb_eq in E3. apply String.eqb_eq in E4.
  split; [exists trip|exists t]; auto.
Qed.

Lemma apply_changes_own_trip_witness :
  "trip-1"%string = "trip-1"%string /\
  (exists trip, In trip [mkTrip "trip-1" "alice"] /\ plannedTripId trip = "trip-1"%string /\
                userId trip = "alice"%string) /\
  (exists t, In t [mkTemplate "t-1" "alice" "Beach"
                     [mkChecklistItem 1 (Some "Towel"%string) None false]] /\
             templateId t = "t-1"%string /\ templateUserId t = "alice"%string).
Proof.
  apply (proj2 (proj2 (apply_changes_own_trip
                         (mkPackingDb [mkTrip "trip-1" "alice"]
                            [mkTemplate "t-1" "alice" "Beach"
                               [mkChecklistItem 1 (Some "Towel"%string) None false]] [])
                         (mkPackingRequest "alice" "t-1" "trip-1")))
               "trip-1"%string).
  discriminate.
Defined.

(** X27. A deleted template is gone.  After a delete that succeeded, no
    user is listed a template with the deleted id, every user is listed
    the other templates as before, and applying the deleted id is answered
    with status 404. *)
Theorem delete_then_list
  (db db' : PackingDb) (req : PackingRequest) (code : nat) (message : string) :
  deleteTemplate db req = (db', Answered code message) ->
  forall req',
    getTemplates db' req'
    = filter (fun view => negb (String.eqb (viewId view) (packTemplateId req)))
             (getTemplates db req') /\
    (packTemplateId req' = packTemplateId req ->
     applyTemplate db' req' = (db', Refused 404 "Template not found")).
Proof.
  unfold deleteTemplate.
  destruct (findTemplate db _ _) as [t|]; [|discriminate].
  intros H req'. injection H as <- _ _. split.
  - unfold getTemplates. cbn [packingTemplates].
    generalize (packingTemplates db) as l.
    induction l as [|x l IH]; [reflexivity|]. cbn [filter].
    destruct (String.eqb (templateId x) (packTemplateId req)) eqn:E1;
      destruct (String.eqb (templateUserId x) (packUserId req')) eqn:E2;
      cbn [negb filter map]; rewrite ?E1, ?E2; cbn [viewOf viewId negb map filter];
      rewrite ?E1; cbn [negb]; rewrite IH; reflexivity.
  - intros Eid. unfold applyTemplate.
    assert (E : findTemplate
                  (mkPackingDb (packingTrips db)
                     (filter (fun t0 => negb (String.eqb (templateId t0)
                                                         (packTemplateId req)))
                             (packingTemplates db))
                     (checklists db))
                  (packTemplateId req') (packUserId req') = None).
    { unfold findTemplate. cbn [packingTemplates].
      destruct (find _ _) as [x|] eqn:Ef; [|reflexivity].
      apply find_some in Ef. destruct Ef as [Hin Ef]. apply filter_In in Hin.
      destruct Hin as [_ Hn]. apply andb_true_iff in Ef. destruct Ef as [E1 _].
      rewrite Eid in E1. rewrite E1 in Hn. discriminate. }
    now rewrite E.
Qed.

Lemma delete_then_list_witness :
  getTemplates (fst (deleteTemplate
                       (mkPackingDb [] [mkTemplate "t-2" "alice" "Snow" [];
                                        mkTemplate "t-1" "alice" "Beach" []] [])
                       (mkPackingRequest "alice" "t-2" "")))
               (mkPackingRequest "alice" "" "")
  = [mkTemplateView "t-1" "Beach" []].
Proof.
  exact (proj1 (delete_then_list
                  (mkPackingDb [] [mkTemplate "t-2" "alice" "Snow" [];
                                   mkTemplate "t-1" "alice" "Beach" []] [])
                  _ (mkPackingRequest "alice" "t-2" "") 200%nat
                  "Template deleted successfully"%string eq_refl
                  (mkPackingRequest "alice" "" ""))).
Defined.
